(* ===== verification/_CoqProject ===== *)
-Q . S2P
Prelude.v
JsString.v
ClassList.v
Dom.v
Html.v
Browser.v
Markup.v
Sidebar.v
LinkLoop.v
Callback.v
Registry.v
Session.v
Book.v
Examples.v
