(* ===== verification/Prelude.v ===== *)
(** * A verification development of the mdBook sidebar script of the HIP book

    The repository (helios-network/HIP) ships one script, [src/toc.js].  It
    defines the custom element [MDBookSidebarScrollbox]; its
    [connectedCallback] (lines 10-68) runs once per page load and

    - replaces the element's content with a fixed table-of-contents markup
      string (line 11);
    - computes the current page from [document.location.href]: the part
      before the first ["#"], with ["index.html"] appended when it ends in
      ["/"] (lines 13-16);
    - walks every [<a>] of the sidebar in document order (lines 17-41):
      relative [href] attributes are prefixed with the global [path_to_root]
      (lines 21-24); a link whose resolved [href] is the current page, or the
      first link when [path_to_root] is empty and the page is an
      ["/index.html"], gets the class [active], its parent [chapter-item]
      gets [expanded], and so does the previous [chapter-item] sibling of
      every [<li>] ancestor (lines 26-39);
    - registers a click listener that saves the sidebar's [scrollTop] under
      the sessionStorage key ["sidebar-scroll"] when the click target is an
      [<a>] (lines 43-47);
    - reads and removes that key, and either restores the scroll offset or
      scrolls the first [#sidebar .active] element into view (lines 48-59);
    - registers [toggleSection] on every [#sidebar a.toggle], which toggles
      [expanded] on the toggle's parent element (lines 61-67).

    Files of the development, in dependency order:
    - [Prelude]: this header, the notation scope [toc_scope], the hint
      databases [toc] and [toc_rw], shared tactics and generic lemmas on
      strings and lists.
    - [JsString] (Module [Js]): the ECMAScript builtins the script calls:
      [split("#")[0]] ([split_first]), [startsWith], [endsWith], the regular
      expression of line 22 (syntax, matching relation, and the executable
      test [is_absolute_url] proved equal to it), [Number::toString] on
      line 45, and [ToNumber] on line 52: white space trimmed, decimal
      literals with sign, fraction, exponent or [Infinity], [0x]/[0o]/[0b]
      literals, [NaN] otherwise; finite values are exact rationals ([Q]),
      and magnitudes that round past the largest double are [Infinity].
    - [ClassList]: [classList] as the DOM's ordered token set (parser,
      serializer, [add], [toggle], [contains]).
    - [Dom]: the document as a tree of elements and text nodes, node paths,
      attributes, [parentElement], [previousElementSibling], [tagName],
      [querySelectorAll] in document order; a setoid [same_shape] with
      [Proper] instances for the queries that only see the tree's shape.
    - [Html]: the HTML fragment parser run by the [innerHTML] setter of
      line 11 (tokenizer states as a step function, tree builder as a stack
      of open elements).
    - [Browser]: the services the script uses, as type classes
      ([UrlResolver] for [a.href]; [Layout] for the scroll range,
      [scrollIntoView] and the snapping of a requested offset to a scroll
      position, with its laws), the [scrollTop] setter, [sessionStorage] as
      a [gmap string string], and one instance of each (RFC 3986
      resolution, fixed-height rows).
    - [Markup]: the literal of line 11 verbatim, the tree written out, and
      the lemma that the parser builds that tree from the literal.
    - [Sidebar]: the handler: one definition per step of
      [connectedCallback] (lines 10-68), the link loop (lines 17-41), the
      two listeners, and the dispatch of a click to them.
    - [LinkLoop]: the loop's specification ([loop_post]) and its proof by
      a frame relation on documents ([adds]); the termination of the
      [while] loop of lines 32-39; the link matching the page and its
      expansion targets are marked; the index alias; at most one active
      link under distinct targets.
    - [Callback]: the current page, the rendered document, a URL with a
      query, the storage and offset through a render and a click,
      [toggleSection].
    - [Registry]: the script run in a window: the class declaration of
      line 6 against the window's global lexical names, [customElements.define]
      of line 70 with its exceptions, and the upgrade of the element
      (constructor, lines 7-9, then [connectedCallback]).
    - [Session]: page loads, clicks, scrolls and other scripts' writes as a
      labelled step relation, a load running the script in a fresh window
      through [Registry.script_load]; the state invariant by rule
      induction; the contract on the ["sidebar-scroll"] key and the
      refinement theorem; a liveness theorem ([offset_reaches_next_page]):
      from a loaded page, a scroll and a click on a sidebar link reach a
      state whose load of the next page shows the chosen offset.
    - [Book]: the handler on the book's own markup: which entry is
      scrolled into view without a stored offset, and what the loop cannot
      change on this markup, for any page.
    - [Examples]: each theorem with hypotheses applied to the book's pages,
      and [ToNumber] on literals of each form.

    Groups of theorems: the rendered document against the loop's
    specification ([Callback.rendered_doc_post]) and its consequences for
    the active link (the matching link and its expansion targets, the
    index alias, at most one active link, none on a URL with a query);
    the life of the scroll offset (saved by a click, restored and removed
    by the next render, the top for a value that is not a finite number,
    the session invariant, the key contract and the reachability of any
    offset on the next page); the entry scrolled into view without a
    stored offset; the current page (fragment, trailing ["/"]);
    [toggleSection]; the termination of the [while] loop; a second run of
    the script; what the book's markup makes idle.

    Bounds and fuel: the [while] loop of lines 32-39 is translated as
    written ([Sidebar.expand_while]), with fuel: its condition is tested
    once per ancestor of the link plus once for [null], and a path of
    length [n] has [n] ancestors, so [expand_ancestors] runs it with fuel
    [n + 1]; [LinkLoop.expand_while_terminates] shows this is exactly
    enough, so the fallback for running out of fuel is never taken.  The
    other loops are structural: the [for] loop over the static link list,
    the tokenizer over the characters of the string, the tree builder over
    the tokens, the upgrades over the candidate elements, the trimming of
    white space over the characters.  Scroll positions are integers ([Z]):
    the [scrollTop] setter converts the assigned value with [ToNumber],
    sends [NaN] and the infinities to 0, takes the position the layout
    snaps a finite value to, and clamps it to [0, scroll_max].  The
    [Layout] laws keep [scroll_max] below 2^53, so every offset the script
    stores is a safe integer: [Number::toString] gives its decimal digits
    and [ToNumber] reads them back exactly.

    Not modelled: non-ASCII characters of custom element names, and the
    [var] or function declarations a script could clash with; the
    browser's HTML error recovery and the character references other than
    [&amp;], [&lt;], [&gt;], [&quot;] (the literal needs none of them); the
    rounding of a non-integer [ToNumber] value to the nearest double, and
    white space outside the code units below 256; [Number::toString] of
    non-integers and of magnitudes from 10^21 (no offset reaches them); a
    page with more than one [mdbook-sidebar-scrollbox] (the page record
    keeps one sidebar offset, so each upgrade's offset would replace the
    previous one; the session's loads require exactly one, as on the
    book's pages); layout, which is an interface; the capture phase and
    [stopPropagation] of event dispatch (the page registers no other
    listener on the sidebar). *)

From stdpp Require Export base list strings gmap.
From Stdlib Require Export ZArith Ascii.

Declare Scope toc_scope.
Delimit Scope toc_scope with toc.
Open Scope toc_scope.

Create HintDb toc discriminated.
Create Rewrite HintDb toc_rw.

(** Invert a hypothesis and clean up. *)
Ltac invc H := inversion H; subst; clear H.

(** ** Strings

    stdpp declares [String.app] [simpl never]; these equations let [simpl]
    and [rewrite] go through an append whose left side is a literal. *)

Lemma str_app_nil_l (s : string) : "" +:+ s = s.
Proof. reflexivity. Qed.

Lemma str_app_cons (c : ascii) (s t : string) :
  String c s +:+ t = String c (s +:+ t).
Proof. reflexivity. Qed.

Lemma str_app_nil_r (s : string) : s +:+ "" = s.
Proof. induction s as [|c s IH]; [done|]. by rewrite str_app_cons, IH. Qed.

Lemma str_app_assoc (s t u : string) : s +:+ (t +:+ u) = (s +:+ t) +:+ u.
Proof. induction s as [|c s IH]; [done|]. by rewrite !str_app_cons, IH. Qed.

#[export] Hint Rewrite str_app_nil_l str_app_cons str_app_nil_r : toc_rw.

(** [forall_chars f s]: every character of [s] satisfies [f]. *)
Fixpoint forall_chars (f : ascii -> bool) (s : string) : bool :=
  match s with
  | EmptyString => true
  | String c s' => f c && forall_chars f s'
  end.

Lemma forall_chars_app f s t :
  forall_chars f (s +:+ t) = forall_chars f s && forall_chars f t.
Proof.
  induction s as [|c s IH]; [done|]. by rewrite str_app_cons; simpl; rewrite IH, andb_assoc.
Qed.

#[export] Hint Rewrite forall_chars_app : toc_rw.

Lemma forall_chars_impl (f g : ascii -> bool) s :
  (forall c, f c = true -> g c = true) -> forall_chars f s = true -> forall_chars g s = true.
Proof.
  intros Hfg. induction s as [|c s IH]; simpl; [done|].
  intros [Hc Hs]%andb_prop. by rewrite Hfg, IH.
Qed.

(** Normalise string appends with literal left sides, then simplify. *)
Ltac str_simpl := autorewrite with toc_rw; simpl.

Lemma str_app_inj_tail (s t : string) (c d : ascii) :
  s +:+ String c "" = t +:+ String d "" -> s = t /\ c = d.
Proof.
  revert t. induction s as [|a s IH]; intros [|b t]; str_simpl; intros H.
  - by injection H.
  - injection H as -> H. destruct t; discriminate.
  - injection H as -> H. destruct s; discriminate.
  - injection H as -> H. apply IH in H as [-> ->]. done.
Qed.

Lemma map_alter_id {A B} (h : A -> B) (f : A -> A) (i : nat) (l : list A) :
  (forall x, l !! i = Some x -> h (f x) = h x) -> h <$> alter f i l = h <$> l.
Proof.
  revert i. induction l as [|x l IH]; intros [|i] Hf; simpl; [done|done|..].
  - f_equal. by apply Hf.
  - f_equal. by apply IH.
Qed.

(** An invariant of the accumulator holds after a [fold_left]. *)
Lemma fold_left_inv {A B} (f : A -> B -> A) (P : A -> Prop) (l : list B) (a : A) :
  P a -> (forall a b, b ∈ l -> P a -> P (f a b)) -> P (fold_left f l a).
Proof.
  revert a. induction l as [|b l IH]; intros a Ha Hf; simpl; [done|].
  apply IH; [apply Hf; [left|done]|]. intros a' b' Hb. apply Hf. by right.
Qed.

(** A property that some step establishes and every later step keeps
    holds after the [fold_left]. *)
Lemma fold_left_sticky {A B} (f : A -> B -> A) (P Q : A -> Prop) (l : list B) (a : A) (b0 : B) :
  b0 ∈ l -> P a ->
  (forall a b, P a -> P (f a b)) ->
  (forall a, P a -> Q (f a b0)) ->
  (forall a b, P a -> Q a -> Q (f a b)) ->
  Q (fold_left f l a).
Proof.
  intros Hb0 Ha HP Htrig HQ. revert a Ha. induction l as [|b l IH]; intros a Ha; simpl;
    [by apply elem_of_nil in Hb0|].
  apply elem_of_cons in Hb0 as [->|Hb0].
  - apply (fold_left_inv _ (fun a => P a /\ Q a)); [split; auto|]. intros a' b' _ [? ?]. auto.
  - apply IH; auto.
Qed.

Lemma existsb_ext {A} (f g : A -> bool) (l : list A) :
  (forall x, f x = g x) -> existsb f l = existsb g l.
Proof. intros Hfg. induction l as [|x l IH]; simpl; [done|]. by rewrite Hfg, IH. Qed.

