(* ===== verification/JsString.v ===== *)
(** * ECMAScript string and number builtins called by [src/toc.js]

    [String.prototype.split] (only [split(sep)[0]]), [startsWith],
    [endsWith], the test of the regular expression of line 22, and the
    conversions between numbers and strings that happen when the scroll
    offset goes through sessionStorage: [String(n)] on [setItem] (line 45)
    and [ToNumber] on the assignment to [scrollTop] (line 52), which trims
    white space and reads decimal, hexadecimal, octal and binary integer
    literals.  Numbers are modelled as integers [Z]: [scrollTop] is an
    integer pixel offset in the model. *)

From S2P Require Import Prelude.
From Stdlib Require Import DecimalString DecimalN QArith.

Module Js.

(** [s.split(sep)[0]]: the part of [s] before the first [sep]. *)
Fixpoint split_first (sep : ascii) (s : string) : string :=
  match s with
  | EmptyString => EmptyString
  | String c s' => if decide (c = sep) then EmptyString else String c (split_first sep s')
  end.

(** [s.startsWith(pre)] *)
Fixpoint starts_with (s pre : string) : bool :=
  match pre, s with
  | EmptyString, _ => true
  | String c p, String d s' => bool_decide (c = d) && starts_with s' p
  | String _ _, EmptyString => false
  end.

(** [s.endsWith(suf)]: [suf] is one of the suffixes of [s]. *)
Fixpoint ends_with (s suf : string) : bool :=
  bool_decide (s = suf) ||
  match s with
  | EmptyString => false
  | String _ s' => ends_with s' suf
  end.

Lemma split_first_app_sep sep s r :
  forall_chars (fun c => bool_decide (c <> sep)) s = true ->
  split_first sep (s +:+ String sep r) = s.
Proof.
  induction s as [|c s IH]; simpl; intros H.
  - by rewrite decide_True.
  - apply andb_prop in H as [Hc H]. apply bool_decide_eq_true in Hc.
    rewrite decide_False by done. by rewrite IH.
Qed.

Lemma starts_with_spec s pre : starts_with s pre = true <-> exists r, s = pre +:+ r.
Proof.
  revert s; induction pre as [|c p IH]; intros [|d s]; simpl.
  - split; [by exists ""|done].
  - split; [by exists (String d s)|done].
  - split; [done|]. by intros [r ?].
  - rewrite andb_true_iff, bool_decide_eq_true, IH. split.
    + intros [-> [r ->]]. by exists r.
    + intros [r Hr]. injection Hr as -> ->. eauto.
Qed.

Lemma ends_with_spec s suf : ends_with s suf = true <-> exists p, s = p +:+ suf.
Proof.
  induction s as [|c s IH]; simpl; rewrite orb_true_iff, bool_decide_eq_true.
  - split; [intros [<-|?]; [by exists ""|done]|].
    intros [[|? ?] Hp]; [by left|done].
  - rewrite IH. split.
    + intros [<-|[p ->]]; [by exists ""|]. by exists (String c p).
    + intros [[|d p] Hp]; [by left|]. right. injection Hp as -> ->. eauto.
Qed.

(** ** The regular expression of line 22: [/^(?:[a-z+]+:)?\/\//]

    Regular expressions of the shape the script uses, with their matching
    relation, and [RegExp.prototype.test] for a pattern anchored by [^]
    with no flags: some prefix of the input matches. *)

Inductive regex :=
| RChr (c : ascii)
| RSet (f : ascii -> bool)
| RCat (r1 r2 : regex)
| ROpt (r : regex)
| RPlus (r : regex).

Inductive re_match : regex -> string -> Prop :=
| MChr c : re_match (RChr c) (String c "")
| MSet f c : f c = true -> re_match (RSet f) (String c "")
| MCat r1 r2 s1 s2 : re_match r1 s1 -> re_match r2 s2 -> re_match (RCat r1 r2) (s1 +:+ s2)
| MOptNone r : re_match (ROpt r) ""
| MOptSome r s : re_match r s -> re_match (ROpt r) s
| MPlusOne r s : re_match r s -> re_match (RPlus r) s
| MPlusMore r s1 s2 : re_match r s1 -> re_match (RPlus r) s2 -> re_match (RPlus r) (s1 +:+ s2).

Definition re_test (r : regex) (s : string) : Prop :=
  exists p t, s = p +:+ t /\ re_match r p.

(** [[a-z+]] *)
Definition scheme_char (c : ascii) : bool :=
  bool_decide (97 <= nat_of_ascii c <= 122)%nat || bool_decide (c = "+"%char).

(** [^(?:[a-z+]+:)?\/\/] *)
Definition url_scheme_re : regex :=
  RCat (ROpt (RCat (RPlus (RSet scheme_char)) (RChr ":"))) (RCat (RChr "/") (RChr "/")).

(** The longest prefix whose characters satisfy [f], and the rest. *)
Fixpoint span (f : ascii -> bool) (s : string) : string * string :=
  match s with
  | EmptyString => ("", "")
  | String c s' => if f c then let '(w, r) := span f s' in (String c w, r) else ("", s)
  end.

(** The executable test of line 22: the input starts with ["//"], or with
    a nonempty run of [[a-z+]] followed by ["://"]. *)
Definition is_absolute_url (s : string) : bool :=
  starts_with s "//" ||
  (let '(w, r) := span scheme_char s in bool_decide (w <> "") && starts_with r "://").

Lemma span_spec f s :
  s = (span f s).1 +:+ (span f s).2 /\ forall_chars f (span f s).1 = true.
Proof.
  induction s as [|c s [IH1 IH2]]; simpl; [done|].
  destruct (f c) eqn:Hc; [|done]. destruct (span f s) as [w r]; simpl in *.
  by rewrite str_app_cons, <- IH1, Hc, IH2.
Qed.

Lemma span_app f w t :
  forall_chars f w = true ->
  match t with EmptyString => True | String c _ => f c = false end ->
  span f (w +:+ t) = (w, t).
Proof.
  induction w as [|c w IH]; simpl; intros Hw Ht.
  - destruct t as [|c t]; simpl; [done|]. by rewrite Ht.
  - apply andb_prop in Hw as [-> Hw]. by rewrite IH.
Qed.

Lemma re_match_cat_inv r1 r2 s :
  re_match (RCat r1 r2) s -> exists s1 s2, s = s1 +:+ s2 /\ re_match r1 s1 /\ re_match r2 s2.
Proof. intros H. invc H. eauto. Qed.

Lemma re_match_opt_inv r s : re_match (ROpt r) s -> s = "" \/ re_match r s.
Proof. intros H. invc H; auto. Qed.

Lemma re_match_chr_inv c s : re_match (RChr c) s -> s = String c "".
Proof. intros H. by invc H. Qed.

Lemma re_match_plus_set f w :
  re_match (RPlus (RSet f)) w <-> w <> "" /\ forall_chars f w = true.
Proof.
  split.
  - remember (RPlus (RSet f)) as r eqn:Er. intros H. revert Er.
    induction H as [c|f' c Hc|r1 r2 s1 s2 H1 IH1 H2 IH2|r|r s Hs IHs|r s Hs IHs
                    |r s1 s2 H1 IH1 H2 IH2]; intros Er; invc Er.
    + invc Hs. simpl. by rewrite andb_true_r.
    + invc H1. destruct (IH2 eq_refl) as [_ IH]. str_simpl. by rewrite H0, IH.
  - intros [Hne Hw]. induction w as [|c w IH]; [done|]. simpl in Hw.
    apply andb_prop in Hw as [Hc Hw]. destruct w as [|d w].
    + by apply MPlusOne, MSet.
    + apply (MPlusMore _ (String c "") (String d w)); [by apply MSet|by apply IH].
Qed.

(** The executable test [is_absolute_url] is the regular expression of
    line 22, [/^(?:[a-z+]+:)?\/\//]: it accepts exactly the strings the
    expression matches a prefix of. *)
Lemma is_absolute_url_spec s : is_absolute_url s = true <-> re_test url_scheme_re s.
Proof.
  unfold is_absolute_url, re_test. rewrite orb_true_iff, starts_with_spec. split.
  - intros [[t ->]|H].
    + exists "//", t. split; [done|].
      exact (MCat _ _ "" "//" (MOptNone _) (MCat _ _ "/" "/" (MChr _) (MChr _))).
    + destruct (span_spec scheme_char s) as [Hs Hw].
      destruct (span scheme_char s) as [w r]; simpl in *.
      apply andb_prop in H as [Hne Hr]. apply bool_decide_eq_true in Hne.
      apply starts_with_spec in Hr as [t ->].
      exists ((w +:+ ":") +:+ "//"), t. split; [by rewrite Hs, <- !str_app_assoc|].
      apply MCat; [|exact (MCat _ _ "/" "/" (MChr _) (MChr _))].
      apply MOptSome, MCat; [by apply re_match_plus_set|constructor].
  - intros (p & t & -> & H).
    apply re_match_cat_inv in H as (p1 & p2 & -> & H1 & H2).
    apply re_match_cat_inv in H2 as (q1 & q2 & -> & Hq1%re_match_chr_inv & Hq2%re_match_chr_inv).
    subst. apply re_match_opt_inv in H1 as [->|H1]; [left; by exists t|right].
    apply re_match_cat_inv in H1 as (w & c & -> & Hw & ->%re_match_chr_inv).
    apply re_match_plus_set in Hw as [Hne Hw].
    rewrite <- !str_app_assoc, span_app by done.
    rewrite bool_decide_eq_true_2 by done. apply starts_with_spec. by exists t.
Qed.

(** ** Numbers and strings

    [Number::toString] (line 45) for an integer [z], whose decimal digits
    it is below 10^21, and [ToNumber] (line 52, [StringToNumber] of
    ECMA-262, 7.1.4.1.1): white space is trimmed at both ends; the rest is
    empty (the value 0), a [StrDecimalLiteral] (a sign, digits, a
    fraction, an exponent, or [Infinity]), or a [NonDecimalIntegerLiteral]
    ([0x], [0o], [0b]); anything else is [NaN].  Finite values are exact
    rationals; a magnitude that rounds past the largest double (from
    2^1024 - 2^970 on) is [Infinity].  The rounding of the other values to
    the nearest double is not modelled: it changes no integer below 2^53.
    Characters are code units below 256, so white space is TAB, LF, VT,
    FF, CR, space and NBSP. *)

Inductive number := NaN | Infinity (neg : bool) | Fin (q : Q).

Definition finite (n : number) : option Q := match n with Fin q => Some q | _ => None end.

Definition digits_of_N (n : N) : string := NilEmpty.string_of_uint (N.to_uint n).

Definition number_to_string (z : Z) : string :=
  if decide (z < 0)%Z then "-" +:+ digits_of_N (Z.to_N (- z)) else digits_of_N (Z.to_N z).

(** The value of a run of decimal digits; the empty run is 0. *)
Definition digits_value (s : string) : option N :=
  N.of_uint <$> NilEmpty.uint_of_string s.

(** [DecimalDigits]: at least one digit. *)
Definition digit_run (s : string) : option N :=
  N.of_uint <$> NilZero.uint_of_string s.

(** TAB, LF, VT, FF, CR, space and NBSP. *)
Definition is_ws (c : ascii) : bool :=
  bool_decide (c ∈ ["009"%char; "010"%char; "011"%char; "012"%char; "013"%char; " "%char;
                    "160"%char]).

Definition is_digit (c : ascii) : bool :=
  bool_decide (c ∈ ["0"%char; "1"%char; "2"%char; "3"%char; "4"%char;
                    "5"%char; "6"%char; "7"%char; "8"%char; "9"%char]).

Fixpoint trim_start (s : string) : string :=
  match s with
  | EmptyString => EmptyString
  | String c r => if is_ws c then trim_start r else s
  end.

Fixpoint trim_end (s : string) : string :=
  match s with
  | EmptyString => EmptyString
  | String c r =>
      let r' := trim_end r in
      if is_ws c && bool_decide (r' = "") then EmptyString else String c r'
  end.

Definition trim (s : string) : string := trim_end (trim_start s).

(** The value of a digit in bases up to 36: [0-9], then [a-z] or [A-Z]. *)
Definition digit_value (c : ascii) : option N :=
  let n := N_of_ascii c in
  if decide (48 <= n <= 57)%N then Some (n - 48)%N
  else if decide (97 <= n <= 122)%N then Some (n - 87)%N
  else if decide (65 <= n <= 90)%N then Some (n - 55)%N
  else None.

Fixpoint radix_digits (b acc : N) (s : string) : option N :=
  match s with
  | EmptyString => Some acc
  | String c r =>
      match digit_value c with
      | Some d => if decide (d < b)%N then radix_digits b (acc * b + d) r else None
      | None => None
      end
  end.

(** The letter after [0] of a [StrNonDecimalIntegerLiteral]. *)
Definition radix_of (c : ascii) : option N :=
  if decide (c = "x"%char \/ c = "X"%char) then Some 16%N
  else if decide (c = "o"%char \/ c = "O"%char) then Some 8%N
  else if decide (c = "b"%char \/ c = "B"%char) then Some 2%N
  else None.

(** The smallest magnitude that rounds to [Infinity]. *)
Definition overflow_bound : Z := (2 ^ 1024 - 2 ^ 970)%Z.

(** A value [q >= 0] with a sign. *)
Definition signed_value (neg : bool) (q : Q) : number :=
  if Qle_bool (inject_Z overflow_bound) q then Infinity neg
  else Fin (if neg then Qopp q else q).

(** [m * 10^k] *)
Definition scale (m : N) (k : Z) : Q :=
  if decide (0 <= k)%Z then inject_Z (Z.of_N m * 10 ^ k)
  else Qred (Z.of_N m # Z.to_pos (10 ^ (- k))).

(** [ExponentPart], or nothing. *)
Definition exponent_part (s : string) : option Z :=
  match s with
  | EmptyString => Some 0%Z
  | String e r =>
      if decide (e = "e"%char \/ e = "E"%char) then
        match r with
        | String c r' =>
            if decide (c = "+"%char) then Z.of_N <$> digit_run r'
            else if decide (c = "-"%char) then (fun n => (- Z.of_N n)%Z) <$> digit_run r'
            else Z.of_N <$> digit_run r
        | EmptyString => None
        end
      else None
  end.

(** The part of a [StrUnsignedDecimalLiteral] after the integer digits:
    a fraction [. DecimalDigits?], or nothing. *)
Definition fraction_part (s : string) : string * string :=
  match s with
  | String c r => if decide (c = "."%char) then span is_digit r else ("", s)
  | EmptyString => ("", "")
  end.

(** [DecimalDigits [. DecimalDigits?] ExponentPart?] or
    [. DecimalDigits ExponentPart?]: its mathematical value. *)
Definition unsigned_decimal (s : string) : option Q :=
  let '(ip, r1) := span is_digit s in
  let '(fp, r2) := fraction_part r1 in
  if decide (ip = "" /\ fp = "") then None
  else match digits_value (ip +:+ fp), exponent_part r2 with
       | Some m, Some x => Some (scale m (x - Z.of_nat (String.length fp)))
       | _, _ => None
       end.

(** [StrUnsignedDecimalLiteral] with the sign read before it. *)
Definition unsigned_literal (neg : bool) (s : string) : number :=
  if decide (s = "Infinity") then Infinity neg
  else match unsigned_decimal s with Some q => signed_value neg q | None => NaN end.

(** [StrDecimalLiteral], or the empty literal. *)
Definition decimal_literal (s : string) : number :=
  match s with
  | EmptyString => Fin 0
  | String c r =>
      if decide (c = "-"%char) then unsigned_literal true r
      else if decide (c = "+"%char) then unsigned_literal false r
      else unsigned_literal false s
  end.

(** [StringNumericLiteral] after trimming. *)
Definition numeric_literal (t : string) : number :=
  match t with
  | String c (String p r) =>
      if decide (c = "0"%char) then
        match radix_of p with
        | Some b =>
            match (if decide (r = "") then None else radix_digits b 0 r) with
            | Some n => signed_value false (inject_Z (Z.of_N n))
            | None => NaN
            end
        | None => decimal_literal t
        end
      else decimal_literal t
  | _ => decimal_literal t
  end.

Definition string_to_number (s : string) : number := numeric_literal (trim s).

Lemma digits_of_N_head n :
  exists c r, digits_of_N n = String c r /\ c <> "-"%char /\ c <> "+"%char.
Proof.
  unfold digits_of_N. destruct (N.to_uint n) eqn:E.
  1: assert (n = 0%N) as -> by
       (apply (f_equal N.of_uint) in E; by rewrite DecimalN.Unsigned.of_to in E);
     discriminate E.
  all: eexists _, _; split; [reflexivity|split; discriminate].
Qed.

Lemma digits_value_digits_of_N n : digits_value (digits_of_N n) = Some n.
Proof.
  unfold digits_value, digits_of_N. rewrite NilEmpty.usu. simpl.
  by rewrite DecimalN.Unsigned.of_to.
Qed.

Lemma digits_of_N_digits n : forall_chars is_digit (digits_of_N n) = true.
Proof.
  unfold digits_of_N. induction (N.to_uint n) as [|u IH|u IH|u IH|u IH|u IH|u IH|u IH|u IH|u IH|u IH];
    cbn [NilEmpty.string_of_uint forall_chars]; rewrite ?IH; reflexivity.
Qed.

Lemma is_digit_facts c : is_digit c = true -> is_ws c = false /\ radix_of c = None.
Proof.
  intros H. apply bool_decide_eq_true in H.
  repeat (apply elem_of_cons in H as [->|H]; [split; reflexivity|]). by apply elem_of_nil in H.
Qed.

Lemma trim_start_ws w s : forall_chars is_ws w = true -> trim_start (w +:+ s) = trim_start s.
Proof.
  induction w as [|c w IH]; [done|]. rewrite str_app_cons. cbn.
  intros [-> Hw]%andb_prop. by apply IH.
Qed.

Lemma trim_end_ws s w : forall_chars is_ws w = true -> trim_end (s +:+ w) = trim_end s.
Proof.
  intros Hw. induction s as [|c s IH].
  - rewrite str_app_nil_l. induction w as [|c w IHw]; [done|].
    cbn in Hw |- *. apply andb_prop in Hw as [-> Hw]. by rewrite IHw.
  - rewrite str_app_cons. cbn. by rewrite IH.
Qed.

Lemma trim_end_id s : forall_chars (fun c => negb (is_ws c)) s = true -> trim_end s = s.
Proof.
  induction s as [|c s IH]; [done|]. cbn. intros [Hc Hs]%andb_prop.
  apply negb_true_iff in Hc. by rewrite Hc, IH.
Qed.

(** Trimming a string with no white space inside, padded with white space. *)
Lemma trim_padded w1 s w2 :
  forall_chars is_ws w1 = true -> forall_chars is_ws w2 = true ->
  forall_chars (fun c => negb (is_ws c)) s = true ->
  trim (w1 +:+ s +:+ w2) = s.
Proof.
  intros H1 H2 Hs. unfold trim. rewrite trim_start_ws by done.
  destruct s as [|c s].
  - rewrite str_app_nil_l, <- (str_app_nil_r w2). by rewrite trim_start_ws.
  - cbn [forall_chars] in Hs. apply andb_prop in Hs as [Hc Hs'].
    apply negb_true_iff in Hc. rewrite str_app_cons. cbn [trim_start]. rewrite Hc.
    rewrite <- str_app_cons, trim_end_ws by done. apply trim_end_id.
    cbn [forall_chars]. by rewrite Hc, Hs'.
Qed.

Lemma number_to_string_no_ws z : forall_chars (fun c => negb (is_ws c)) (number_to_string z) = true.
Proof.
  assert (forall n, forall_chars (fun c => negb (is_ws c)) (digits_of_N n) = true) as Hd.
  { intros n. apply (forall_chars_impl is_digit); [|apply digits_of_N_digits].
    intros c Hc. by rewrite (proj1 (is_digit_facts c Hc)). }
  unfold number_to_string. case_decide; [|apply Hd].
  rewrite str_app_cons, str_app_nil_l. cbn. apply Hd.
Qed.

Lemma span_all f s : forall_chars f s = true -> span f s = (s, "").
Proof. intros H. rewrite <- (str_app_nil_r s) at 1. by apply span_app. Qed.

Lemma safe_below_overflow : (2 ^ 53 < overflow_bound)%Z.
Proof. vm_compute. reflexivity. Qed.

Lemma signed_value_below neg n :
  (Z.of_N n < overflow_bound)%Z ->
  signed_value neg (inject_Z (Z.of_N n)) =
  Fin (if neg then Qopp (inject_Z (Z.of_N n)) else inject_Z (Z.of_N n)).
Proof.
  intros Hb. unfold signed_value. destruct (Qle_bool _ _) eqn:E; [|done].
  apply Qle_bool_iff in E. rewrite <- Zle_Qle in E. lia.
Qed.

(** A run of decimal digits read by [StrUnsignedDecimalLiteral]. *)
Lemma unsigned_literal_digits neg n :
  (Z.of_N n < overflow_bound)%Z ->
  unsigned_literal neg (digits_of_N n) =
  Fin (if neg then Qopp (inject_Z (Z.of_N n)) else inject_Z (Z.of_N n)).
Proof.
  intros Hb. pose proof (digits_of_N_digits n) as Hd. unfold unsigned_literal.
  rewrite decide_False by (intros Heq; rewrite Heq in Hd; discriminate).
  unfold unsigned_decimal. rewrite span_all by done. cbn [fraction_part].
  destruct (digits_of_N_head n) as (c & r & E & _).
  rewrite decide_False by (rewrite E; intros [? _]; discriminate).
  rewrite str_app_nil_r, digits_value_digits_of_N. cbn [exponent_part].
  unfold scale. rewrite decide_True by (simpl; lia). simpl (_ - _)%Z.
  rewrite Z.pow_0_r, Z.mul_1_r. by apply signed_value_below.
Qed.

Lemma numeric_literal_number_to_string z :
  (Z.abs z < overflow_bound)%Z -> numeric_literal (number_to_string z) = Fin (inject_Z z).
Proof.
  intros Hb. unfold number_to_string. case_decide.
  - destruct (digits_of_N_head (Z.to_N (- z))) as (c & r & E & _ & _).
    rewrite E, str_app_cons, str_app_nil_l. cbn [numeric_literal].
    rewrite decide_False by done. cbn [decimal_literal]. rewrite decide_True by done.
    rewrite <- E, unsigned_literal_digits by lia. unfold Qopp, inject_Z. simpl. do 2 f_equal. lia.
  - destruct (digits_of_N_head (Z.to_N z)) as (c & r & E & H1 & H2).
    assert (decimal_literal (digits_of_N (Z.to_N z)) = Fin (inject_Z z)) as Hdec.
    { rewrite E. cbn [decimal_literal]. rewrite !decide_False by done.
      rewrite <- E, unsigned_literal_digits by lia. unfold inject_Z. do 2 f_equal. lia. }
    pose proof (digits_of_N_digits (Z.to_N z)) as Hd. rewrite E in Hd, Hdec |- *.
    destruct r as [|p r]; [done|]. cbn in Hd. apply andb_prop in Hd as [_ Hd].
    apply andb_prop in Hd as [Hp _]. cbn [numeric_literal].
    rewrite (proj2 (is_digit_facts p Hp)). by destruct (decide _).
Qed.

(** [ToNumber(String(z))] is [z] below the overflow bound. *)
Lemma string_to_number_number_to_string z :
  (Z.abs z < overflow_bound)%Z -> string_to_number (number_to_string z) = Fin (inject_Z z).
Proof.
  intros Hb. unfold string_to_number.
  rewrite <- (str_app_nil_r (number_to_string z)), <- (str_app_nil_l (number_to_string z +:+ "")).
  rewrite trim_padded by (done || apply number_to_string_no_ws).
  by apply numeric_literal_number_to_string.
Qed.

Lemma split_first_app_no_sep sep u t :
  forall_chars (fun c => bool_decide (c <> sep)) u = true ->
  split_first sep (u +:+ t) = u +:+ split_first sep t.
Proof.
  induction u as [|c u IH]; intros Hu; [by rewrite !str_app_nil_l|].
  cbn in Hu. apply andb_prop in Hu as [Hc Hu]. apply bool_decide_eq_true in Hc.
  rewrite !str_app_cons. cbn. rewrite decide_False by done. by rewrite IH.
Qed.

Lemma split_first_id sep s :
  forall_chars (fun c => bool_decide (c <> sep)) s = true -> split_first sep s = s.
Proof.
  induction s as [|c s IH]; simpl; [done|]. intros [Hc Hs]%andb_prop.
  apply bool_decide_eq_true in Hc. rewrite decide_False by done. by rewrite IH.
Qed.

Lemma ends_with_last s c d : ends_with (s +:+ String c "") (String d "") = bool_decide (c = d).
Proof.
  apply Bool.eq_iff_eq_true. rewrite ends_with_spec, bool_decide_eq_true. split.
  - intros [p Hp]. by apply str_app_inj_tail in Hp as [_ ->].
  - intros ->. eauto.
Qed.

Lemma number_to_string_nonempty z : number_to_string z <> "".
Proof.
  unfold number_to_string. case_decide; [by rewrite str_app_cons|].
  destruct (digits_of_N_head (Z.to_N z)) as (c & r & -> & _). done.
Qed.

End Js.
