(* ===== verification/ClassList.v ===== *)
(** * [Element.classList]: the [class] attribute as an ordered token set

    The DOM keeps [classList] in sync with the [class] attribute: reading
    runs the ordered-set parser (split on ASCII white space, drop repeats),
    and [add] and [toggle] run the update steps, which write the serialized
    set back into the attribute (tokens joined by one space).  The script
    calls [classList.contains] (lines 29, 34), [classList.add] (lines 27, 30,
    35) and [classList.toggle] (line 63) with the constant tokens
    ["chapter-item"], ["active"] and ["expanded"]. *)

From S2P Require Import Prelude.

Module ClassList.

(** ASCII white space of the HTML standard: TAB, LF, FF, CR, SPACE. *)
Definition is_ws (c : ascii) : bool :=
  match nat_of_ascii c with 9 | 10 | 12 | 13 | 32 => true | _ => false end%nat.

Definition cons_token (w : string) (ts : list string) : list string :=
  if decide (w = "") then ts else w :: ts.

(** The characters before the first white space, and the tokens after it. *)
Fixpoint split_aux (s : string) : string * list string :=
  match s with
  | EmptyString => ("", [])
  | String c s' =>
      let '(w, ts) := split_aux s' in
      if is_ws c then ("", cons_token w ts) else (String c w, ts)
  end.

(** Split on ASCII white space. *)
Definition split_ws (s : string) : list string :=
  let '(w, ts) := split_aux s in cons_token w ts.

(** Drop repeated tokens, keeping the first occurrence. *)
Fixpoint dedup_go (seen : list string) (ts : list string) : list string :=
  match ts with
  | [] => []
  | t :: ts' => if decide (t ∈ seen) then dedup_go seen ts' else t :: dedup_go (t :: seen) ts'
  end.

Definition ordered_set_parse (s : string) : list string := dedup_go [] (split_ws s).

Fixpoint ordered_set_serialize (ts : list string) : string :=
  match ts with
  | [] => ""
  | [t] => t
  | t :: ts' => t +:+ String " " (ordered_set_serialize ts')
  end.

(** A token the set can hold: nonempty, without white space. *)
Definition valid_token (t : string) : Prop :=
  t <> "" /\ forall_chars (fun c => negb (is_ws c)) t = true.

#[export] Instance valid_token_dec t : Decision (valid_token t).
Proof. unfold valid_token. apply _. Defined.

Definition valid_set (ts : list string) : Prop := Forall valid_token ts /\ NoDup ts.

(** ** Parsing what was serialized *)

Lemma split_aux_token t s :
  forall_chars (fun c => negb (is_ws c)) t = true ->
  split_aux (t +:+ s) = (t +:+ (split_aux s).1, (split_aux s).2).
Proof.
  induction t as [|c t IH]; intros H; str_simpl; [by destruct (split_aux s)|].
  apply andb_prop in H as [Hc H]. rewrite IH by done.
  destruct (split_aux s) as [w ts]; simpl. by destruct (is_ws c).
Qed.

Lemma split_aux_ws c s : is_ws c = true -> split_aux (String c s) = ("", split_ws s).
Proof. intros Hc. unfold split_ws. simpl. rewrite Hc. by destruct (split_aux s). Qed.

Lemma split_ws_serialize ts : Forall valid_token ts -> split_ws (ordered_set_serialize ts) = ts.
Proof.
  induction ts as [|t ts IH]; intros Hts; [done|].
  apply Forall_cons in Hts as [[Hne Ht] Hts].
  unfold split_ws. destruct ts as [|t' ts'].
  - cbn [ordered_set_serialize]. rewrite <- (str_app_nil_r t), split_aux_token by done.
    simpl. rewrite str_app_nil_r. unfold cons_token. by rewrite decide_False.
  - change (ordered_set_serialize (t :: t' :: ts'))
      with (t +:+ String " " (ordered_set_serialize (t' :: ts'))).
    rewrite split_aux_token, split_aux_ws by done.
    cbn [fst snd]. rewrite IH by done. rewrite str_app_nil_r.
    unfold cons_token. by rewrite decide_False.
Qed.

Lemma dedup_go_nodup seen ts :
  NoDup ts -> Forall (fun t => t ∉ seen) ts -> dedup_go seen ts = ts.
Proof.
  revert seen. induction ts as [|t ts IH]; intros seen Hnd Hf; [done|].
  apply NoDup_cons in Hnd as [Ht Hnd]. apply Forall_cons in Hf as [Hts Hf]. simpl.
  rewrite decide_False by done. f_equal. apply IH; [done|].
  apply Forall_forall. intros x Hx. rewrite elem_of_cons. intros [->|Hs]; [done|].
  by eapply Forall_forall in Hf.
Qed.

Theorem ordered_set_roundtrip ts :
  valid_set ts -> ordered_set_parse (ordered_set_serialize ts) = ts.
Proof.
  intros [Hv Hnd]. unfold ordered_set_parse. rewrite split_ws_serialize by done.
  apply dedup_go_nodup; [done|]. apply Forall_forall. set_solver.
Qed.

(** ** Parsed sets are valid *)

Lemma split_aux_valid s :
  forall_chars (fun c => negb (is_ws c)) (split_aux s).1 = true /\
  Forall valid_token (split_aux s).2.
Proof.
  induction s as [|c s [IH1 IH2]]; simpl; [done|].
  destruct (split_aux s) as [w ts]; simpl in *.
  destruct (is_ws c) eqn:Hc; simpl; [|by rewrite Hc].
  split; [done|]. unfold cons_token. case_decide; [done|]. by constructor.
Qed.

Lemma split_ws_valid s : Forall valid_token (split_ws s).
Proof.
  unfold split_ws. destruct (split_aux_valid s) as [H1 H2].
  destruct (split_aux s) as [w ts]. unfold cons_token. case_decide; [done|].
  by constructor.
Qed.

Lemma dedup_go_spec seen ts :
  NoDup (dedup_go seen ts) /\ (forall t, t ∈ dedup_go seen ts -> t ∈ ts /\ t ∉ seen).
Proof.
  revert seen. induction ts as [|t ts IH]; intros seen; simpl.
  - split; [constructor|set_solver].
  - case_decide.
    + destruct (IH seen) as [Hnd Hin]. split; [done|]. set_solver.
    + destruct (IH (t :: seen)) as [Hnd Hin]. split.
      * constructor; [|done]. intros Ht. apply Hin in Ht. set_solver.
      * intros x. rewrite elem_of_cons. intros [->|Hx]; [set_solver|].
        apply Hin in Hx. set_solver.
Qed.

Lemma ordered_set_parse_valid s : valid_set (ordered_set_parse s).
Proof.
  unfold ordered_set_parse. destruct (dedup_go_spec [] (split_ws s)) as [Hnd Hin].
  split; [|done]. apply Forall_forall. intros t Ht.
  eapply Forall_forall; [apply split_ws_valid|]. by apply Hin.
Qed.

(** ** The operations of [DOMTokenList] on the set *)

Definition contains (ts : list string) (t : string) : bool := bool_decide (t ∈ ts).

Definition add (t : string) (ts : list string) : list string :=
  if decide (t ∈ ts) then ts else ts ++ [t].

Definition toggle (t : string) (ts : list string) : list string :=
  if decide (t ∈ ts) then filter (fun u => u <> t) ts else ts ++ [t].

Lemma add_valid t ts : valid_token t -> valid_set ts -> valid_set (add t ts).
Proof.
  intros Ht [Hv Hnd]. unfold add. case_decide; [done|]. split.
  - apply Forall_app. auto.
  - apply NoDup_app. split_and!; [done| |by apply NoDup_singleton]. set_solver.
Qed.

Lemma toggle_valid t ts : valid_token t -> valid_set ts -> valid_set (toggle t ts).
Proof.
  intros Ht [Hv Hnd]. unfold toggle. case_decide.
  - split; [|by apply NoDup_filter]. apply Forall_forall.
    intros x [_ Hx]%list_elem_of_filter. by eapply Forall_forall.
  - split; [apply Forall_app; auto|]. apply NoDup_app.
    split_and!; [done| |by apply NoDup_singleton]. set_solver.
Qed.

Lemma elem_of_add t u ts : u ∈ add t ts <-> u = t \/ u ∈ ts.
Proof. unfold add. case_decide; set_solver. Qed.

Lemma elem_of_toggle t u ts : u ∈ toggle t ts <-> (u = t /\ t ∉ ts) \/ (u <> t /\ u ∈ ts).
Proof.
  unfold toggle. case_decide.
  - rewrite list_elem_of_filter. naive_solver.
  - set_solver.
Qed.

Lemma contains_add c ts u : contains (add c ts) u = contains ts u || bool_decide (u = c).
Proof.
  unfold contains. rewrite <- bool_decide_or. apply bool_decide_ext.
  rewrite elem_of_add. tauto.
Qed.

Lemma contains_toggle c ts u :
  contains (toggle c ts) u = if decide (u = c) then negb (contains ts c) else contains ts u.
Proof.
  unfold contains. case_decide as Hu.
  - subst. rewrite <- bool_decide_not. apply bool_decide_ext. rewrite elem_of_toggle. naive_solver.
  - apply bool_decide_ext. rewrite elem_of_toggle. naive_solver.
Qed.

End ClassList.
