(* ===== verification/Dom.v ===== *)
(** * The document tree

    The state the script reads and writes: a tree of elements (tag name,
    attributes, children) and text nodes.  A node is addressed by its path,
    the list of child indices from the root element ([document.documentElement]).
    Element methods become functions on the tree: [getAttribute],
    [setAttribute] (what the [href] setter of line 23 does), [classList]
    through [ClassList], [parentElement], [previousElementSibling],
    [tagName], and [querySelectorAll] as a filter of the elements in
    document (preorder) order.  The script never inserts or removes a node
    after line 11, which the skeleton lemmas below make precise. *)

From S2P Require Import Prelude ClassList.

Module Dom.

Definition attrs := list (string * string).

Inductive node :=
| Element (tag : string) (ats : attrs) (kids : list node)
| Text (data : string).

(** Induction through the children list. *)
Section NodeInd.
Variable P : node -> Prop.
Hypothesis HE : forall t a ks, Forall P ks -> P (Element t a ks).
Hypothesis HT : forall s, P (Text s).

Fixpoint node_ind' (n : node) : P n :=
  match n with
  | Element t a ks =>
      HE t a ks ((fix go (ks : list node) : Forall P ks :=
                    match ks with
                    | [] => Forall_nil_2 P
                    | k :: ks' => Forall_cons_2 P k ks' (node_ind' k) (go ks')
                    end) ks)
  | Text s => HT s
  end.
End NodeInd.

Definition path := list nat.

(** ** Attributes *)

Fixpoint get_attr (a : attrs) (k : string) : option string :=
  match a with
  | [] => None
  | (k', v) :: a' => if decide (k = k') then Some v else get_attr a' k
  end.

(** [setAttribute]: change the value in place, or append the attribute. *)
Fixpoint set_attr (k v : string) (a : attrs) : attrs :=
  match a with
  | [] => [(k, v)]
  | (k', v') :: a' => if decide (k = k') then (k, v) :: a' else (k', v') :: set_attr k v a'
  end.

Lemma get_set_attr k v a k' :
  get_attr (set_attr k v a) k' = if decide (k' = k) then Some v else get_attr a k'.
Proof.
  induction a as [|[k1 v1] a IH]; simpl; [done|].
  destruct (decide (k = k1)) as [->|]; simpl; repeat case_decide; congruence.
Qed.

(** ** Paths *)

Fixpoint node_at (d : node) (p : path) : option node :=
  match p, d with
  | [], _ => Some d
  | i :: p', Element _ _ ks => ks !! i ≫= fun k => node_at k p'
  | _ :: _, Text _ => None
  end.

Definition elem_at (d : node) (p : path) : option (string * attrs) :=
  match node_at d p with Some (Element t a _) => Some (t, a) | _ => None end.

Definition attrs_at (d : node) (p : path) : option attrs := snd <$> elem_at d p.

(** Change the attributes of the element at [p]; nothing elsewhere. *)
Fixpoint alter_attrs (g : attrs -> attrs) (p : path) (d : node) : node :=
  match d, p with
  | Element t a ks, [] => Element t (g a) ks
  | Element t a ks, i :: p' => Element t a (alter (alter_attrs g p') i ks)
  | Text s, _ => Text s
  end.

Lemma elem_at_nil t a ks : elem_at (Element t a ks) [] = Some (t, a).
Proof. done. Qed.

Lemma elem_at_cons t a ks i q : elem_at (Element t a ks) (i :: q) = ks !! i ≫= fun k => elem_at k q.
Proof. unfold elem_at. simpl. by destruct (ks !! i). Qed.

Lemma elem_at_text s p : elem_at (Text s) p = None.
Proof. by destruct p. Qed.

#[export] Hint Rewrite elem_at_nil elem_at_cons elem_at_text : toc_rw.

Lemma elem_at_alter_attrs_eq g p d :
  elem_at (alter_attrs g p d) p = (fun ta => (ta.1, g ta.2)) <$> elem_at d p.
Proof.
  revert d. induction p as [|i p IH]; intros [t a ks|s]; simpl; autorewrite with toc_rw; try done.
  rewrite list_lookup_alter_eq. destruct (ks !! i) as [k|]; [exact (IH k)|done].
Qed.

Lemma elem_at_alter_attrs_ne g p d q :
  p <> q -> elem_at (alter_attrs g p d) q = elem_at d q.
Proof.
  revert d q. induction p as [|i p IH]; intros [t a ks|s] [|j q] Hpq;
    simpl; autorewrite with toc_rw; try done.
  destruct (decide (i = j)) as [->|Hij].
  - rewrite list_lookup_alter_eq. destruct (ks !! j) as [k|]; [|done].
    apply (IH k q). congruence.
  - by rewrite list_lookup_alter_ne.
Qed.

(** ** The skeleton: the tree without its attributes *)

Fixpoint skeleton (d : node) : node :=
  match d with
  | Element t _ ks => Element t [] (skeleton <$> ks)
  | Text s => Text s
  end.

Lemma skeleton_alter_attrs g p d : skeleton (alter_attrs g p d) = skeleton d.
Proof.
  revert p. induction d as [t a ks IH|s] using node_ind'; intros [|i p]; simpl; try done.
  f_equal. apply map_alter_id. intros k Hk. eapply Forall_forall in IH; [apply IH|].
  by eapply list_elem_of_lookup_2.
Qed.

Lemma node_at_skeleton d p : node_at (skeleton d) p = skeleton <$> node_at d p.
Proof.
  revert p. induction d as [t a ks IH|s] using node_ind'; intros [|i p]; simpl; try done.
  rewrite list_lookup_fmap. destruct (ks !! i) as [k|] eqn:Hk; simpl; [|done].
  eapply Forall_forall in IH; [apply IH|]. by eapply list_elem_of_lookup_2.
Qed.

(** Two trees have the same shape when they differ in attributes only. *)
Definition same_shape (d1 d2 : node) : Prop := skeleton d1 = skeleton d2.

#[export] Instance same_shape_equiv : Equivalence same_shape.
Proof. unfold same_shape. split; repeat intro; congruence. Qed.

Lemma alter_attrs_same_shape g p d : same_shape (alter_attrs g p d) d.
Proof. apply skeleton_alter_attrs. Qed.

(** ** Structure: tag names, parents, siblings, document order *)

Definition tag_at (d : node) (p : path) : option string := fst <$> elem_at d p.

(** [tagName]: the ASCII upper case of the local name (HTML elements). *)
Definition ascii_upper (c : ascii) : ascii :=
  let n := nat_of_ascii c in
  if decide (97 <= n <= 122)%nat then ascii_of_nat (n - 32) else c.

Fixpoint string_upper (s : string) : string :=
  match s with EmptyString => EmptyString | String c s' => String (ascii_upper c) (string_upper s') end.

Definition tag_name_at (d : node) (p : path) : option string := string_upper <$> tag_at d p.

(** [parentElement]: the parent of the root element is the document, not
    an element. *)
Definition parent_element (p : path) : option path :=
  match p with [] => None | _ => Some (removelast p) end.

(** The index of the nearest element among the children before [i]. *)
Fixpoint prev_elem_idx (ks : list node) (i : nat) : option nat :=
  match i with
  | 0 => None
  | S j => match ks !! j with Some (Element _ _ _) => Some j | _ => prev_elem_idx ks j end
  end.

(** [previousElementSibling] *)
Definition prev_element_sibling (d : node) (p : path) : option path :=
  match last p, node_at d (removelast p) with
  | Some i, Some (Element _ _ ks) => (fun j => removelast p ++ [j]) <$> prev_elem_idx ks i
  | _, _ => None
  end.

(** The strict prefixes of a path, the parent first: the chain of
    [parentElement] up to the root element. *)
Fixpoint ancestors (p : path) : list path :=
  match p with
  | [] => []
  | i :: p' => (cons i <$> ancestors p') ++ [[]]
  end.

(** Paths of the elements of a tree in document order (preorder). *)
Fixpoint preorder (d : node) : list path :=
  match d with
  | Text _ => []
  | Element _ _ ks =>
      [] :: (fix go (i : nat) (ks : list node) : list path :=
               match ks with
               | [] => []
               | k :: ks' => (cons i <$> preorder k) ++ go (S i) ks'
               end) 0 ks
  end.

Fixpoint preorder_list (i : nat) (ks : list node) : list path :=
  match ks with
  | [] => []
  | k :: ks' => (cons i <$> preorder k) ++ preorder_list (S i) ks'
  end.

Lemma preorder_element t a ks : preorder (Element t a ks) = [] :: preorder_list 0 ks.
Proof. reflexivity. Qed.

(** ** Document order enumerates the elements, each once *)

Lemma elem_of_preorder_list i ks q :
  q ∈ preorder_list i ks <->
  exists j k q', q = (i + j)%nat :: q' /\ ks !! j = Some k /\ q' ∈ preorder k.
Proof.
  revert i. induction ks as [|k ks IH]; intros i; simpl.
  - split; [set_solver|]. by intros (j & k & q' & _ & ? & _).
  - rewrite elem_of_app, list_elem_of_fmap, IH. split.
    + intros [(q' & -> & Hq)|(j & k' & q' & -> & Hk & Hq)].
      * exists 0%nat, k, q'. by rewrite Nat.add_0_r.
      * exists (S j), k', q'. by rewrite Nat.add_succ_r.
    + intros (j & k' & q' & -> & Hk & Hq). destruct j as [|j]; simpl in Hk.
      * left. exists q'. rewrite Nat.add_0_r. by simplify_eq.
      * right. exists j, k', q'. by rewrite Nat.add_succ_r.
Qed.

Theorem elem_of_preorder d q : q ∈ preorder d <-> is_Some (elem_at d q).
Proof.
  revert q. induction d as [t a ks IH|s] using node_ind'; intros q.
  - rewrite preorder_element, elem_of_cons, elem_of_preorder_list.
    destruct q as [|j q]; autorewrite with toc_rw; [naive_solver|].
    split.
    + intros [?|(j' & k & q' & ? & Hk & Hq)]; [done|]. simplify_eq/=. rewrite Hk. simpl.
      eapply Forall_forall in IH; [by apply IH|]. by eapply list_elem_of_lookup_2.
    + destruct (ks !! j) as [k|] eqn:Hk; simpl; [|by intros []].
      intros Hq. right. exists j, k, q. split_and!; [done|done|].
      eapply Forall_forall in IH; [by apply IH|]. by eapply list_elem_of_lookup_2.
  - simpl. rewrite elem_at_text. split; [set_solver|by intros []].
Qed.

Lemma preorder_list_nodup i ks :
  Forall (fun k => NoDup (preorder k)) ks -> NoDup (preorder_list i ks).
Proof.
  revert i. induction ks as [|k ks IH]; intros i Hks; simpl; [constructor|].
  apply Forall_cons in Hks as [Hk Hks]. apply NoDup_app. split_and!.
  - apply NoDup_fmap; [congruence|done].
  - intros q (q' & -> & _)%list_elem_of_fmap (j & k' & q'' & Hq & _)%elem_of_preorder_list.
    injection Hq. lia.
  - by apply IH.
Qed.

Theorem preorder_nodup d : NoDup (preorder d).
Proof.
  induction d as [t a ks IH|s] using node_ind'; [|constructor].
  rewrite preorder_element. constructor; [|by apply preorder_list_nodup].
  by intros (j & k & q & ? & _)%elem_of_preorder_list.
Qed.

(** ** Structural queries depend on the shape only *)

Lemma elem_at_skeleton d p : elem_at (skeleton d) p = (fun ta => (ta.1, [])) <$> elem_at d p.
Proof. unfold elem_at. rewrite node_at_skeleton. by destruct (node_at d p) as [[]|]. Qed.

Lemma prev_elem_idx_skeleton ks i : prev_elem_idx (skeleton <$> ks) i = prev_elem_idx ks i.
Proof.
  induction i as [|i IH]; simpl; [done|]. rewrite list_lookup_fmap.
  by destruct (ks !! i) as [[]|]; simpl.
Qed.

Lemma preorder_skeleton d : preorder (skeleton d) = preorder d.
Proof.
  induction d as [t a ks IH|s] using node_ind'; [|done]. simpl skeleton.
  rewrite !preorder_element. f_equal. generalize 0%nat.
  induction IH as [|k ks Hk _ IH]; intros i; simpl; [done|]. by rewrite Hk, IH.
Qed.

#[export] Instance tag_at_proper : Proper (same_shape ==> eq ==> eq) tag_at.
Proof.
  intros d1 d2 E p ? <-. unfold tag_at.
  assert (fst <$> elem_at (skeleton d1) p = fst <$> elem_at (skeleton d2) p) as H.
  { unfold same_shape in E. by rewrite E. }
  rewrite !elem_at_skeleton, <- !option_fmap_compose in H. done.
Qed.

#[export] Instance prev_element_sibling_proper :
  Proper (same_shape ==> eq ==> eq) prev_element_sibling.
Proof.
  intros d1 d2 E p ? <-. unfold prev_element_sibling.
  assert (skeleton <$> node_at d1 (removelast p) = skeleton <$> node_at d2 (removelast p)) as H.
  { unfold same_shape in E. by rewrite <- !node_at_skeleton, E. }
  destruct (last p); [|done].
  destruct (node_at d1 _) as [[t1 a1 ks1|]|], (node_at d2 _) as [[t2 a2 ks2|]|];
    simpl in H; try done.
  injection H as _ Hks. by rewrite <- prev_elem_idx_skeleton, Hks, prev_elem_idx_skeleton.
Qed.

#[export] Instance preorder_proper : Proper (same_shape ==> eq) preorder.
Proof.
  intros d1 d2 E. unfold same_shape in E. by rewrite <- preorder_skeleton, E, preorder_skeleton.
Qed.

(** ** [classList] and attributes of the element at a path *)

Definition class_list (a : attrs) : list string :=
  match get_attr a "class" with None => [] | Some s => ClassList.ordered_set_parse s end.

(** The update steps of [DOMTokenList]: write the serialized set back into
    the attribute, unless there is no attribute and the set is empty. *)
Definition class_update (ts : list string) (a : attrs) : attrs :=
  match get_attr a "class", ts with
  | None, [] => a
  | _, _ => set_attr "class" (ClassList.ordered_set_serialize ts) a
  end.

Definition class_add (c : string) (a : attrs) : attrs :=
  class_update (ClassList.add c (class_list a)) a.

Definition class_toggle (c : string) (a : attrs) : attrs :=
  class_update (ClassList.toggle c (class_list a)) a.

Definition get_attribute (d : node) (p : path) (k : string) : option string :=
  attrs_at d p ≫= fun a => get_attr a k.

Definition has_class (d : node) (p : path) (c : string) : bool :=
  match attrs_at d p with Some a => ClassList.contains (class_list a) c | None => false end.

Definition add_class (c : string) (p : path) (d : node) : node := alter_attrs (class_add c) p d.
Definition toggle_class (c : string) (p : path) (d : node) : node := alter_attrs (class_toggle c) p d.
Definition set_attribute (k v : string) (p : path) (d : node) : node := alter_attrs (set_attr k v) p d.

Lemma class_list_valid a : ClassList.valid_set (class_list a).
Proof.
  unfold class_list. destruct (get_attr a "class"); [apply ClassList.ordered_set_parse_valid|].
  split; constructor.
Qed.

Lemma class_list_update ts a : ClassList.valid_set ts -> class_list (class_update ts a) = ts.
Proof.
  intros Hv. unfold class_update, class_list.
  destruct (get_attr a "class") eqn:E, ts as [|t ts]; rewrite ?E; try done;
    rewrite get_set_attr, decide_True by done; by apply ClassList.ordered_set_roundtrip.
Qed.

Lemma class_list_add c a :
  ClassList.valid_token c -> class_list (class_add c a) = ClassList.add c (class_list a).
Proof.
  intros Hc. apply class_list_update, ClassList.add_valid; [done|apply class_list_valid].
Qed.

Lemma class_list_toggle c a :
  ClassList.valid_token c -> class_list (class_toggle c a) = ClassList.toggle c (class_list a).
Proof.
  intros Hc. apply class_list_update, ClassList.toggle_valid; [done|apply class_list_valid].
Qed.

Lemma get_attr_class_update ts a k : k <> "class" -> get_attr (class_update ts a) k = get_attr a k.
Proof.
  intros Hk. unfold class_update.
  destruct (get_attr a "class"), ts; try done; by rewrite get_set_attr, decide_False.
Qed.

Lemma attrs_at_alter_attrs g p d q :
  attrs_at (alter_attrs g p d) q = if decide (p = q) then g <$> attrs_at d q else attrs_at d q.
Proof.
  unfold attrs_at. case_decide as Hpq.
  - subst. rewrite elem_at_alter_attrs_eq, <- !option_fmap_compose. done.
  - by rewrite elem_at_alter_attrs_ne.
Qed.

(** What the mutations do, seen through [has_class] and [get_attribute]. *)
Lemma has_class_alter_ne g p d q u : p <> q -> has_class (alter_attrs g p d) q u = has_class d q u.
Proof. intros Hpq. unfold has_class. by rewrite attrs_at_alter_attrs, decide_False. Qed.

Lemma get_attribute_add_class c p d q k :
  k <> "class" -> get_attribute (add_class c p d) q k = get_attribute d q k.
Proof.
  intros Hk. unfold get_attribute, add_class. rewrite attrs_at_alter_attrs.
  case_decide; [|done]. destruct (attrs_at d q); simpl; [|done].
  by apply get_attr_class_update.
Qed.

Lemma has_class_set_attribute k v p d q u :
  k <> "class" -> has_class (set_attribute k v p d) q u = has_class d q u.
Proof.
  intros Hk. unfold has_class, set_attribute, class_list. rewrite attrs_at_alter_attrs.
  case_decide; [|done]. destruct (attrs_at d q); simpl; [|done].
  by rewrite get_set_attr, decide_False.
Qed.

Lemma get_attribute_set_attribute k v p d q k' :
  get_attribute (set_attribute k v p d) q k' =
  if decide (q = p /\ k' = k /\ is_Some (attrs_at d p)) then Some v else get_attribute d q k'.
Proof.
  unfold get_attribute, set_attribute. rewrite attrs_at_alter_attrs.
  destruct (decide (p = q)) as [<-|Hpq].
  - destruct (attrs_at d p) as [a|]; simpl.
    + rewrite get_set_attr. repeat case_decide; naive_solver.
    + rewrite decide_False; [done|]. intros (_ & _ & [? ?]); discriminate.
  - rewrite decide_False; [done|naive_solver].
Qed.

(** ** [innerHTML] and [querySelectorAll] *)

Fixpoint alter_node (f : node -> node) (p : path) (d : node) : node :=
  match p, d with
  | [], _ => f d
  | i :: p', Element t a ks => Element t a (alter (alter_node f p') i ks)
  | _ :: _, Text s => Text s
  end.

(** Setting [innerHTML] to markup that parses to [ks]. *)
Definition set_children (ks : list node) (p : path) (d : node) : node :=
  alter_node (fun n => match n with Element t a _ => Element t a ks | Text s => Text s end) p d.

(** The element descendants of the node at [sp], in document order. *)
Definition descendants (d : node) (sp : path) : list path :=
  match node_at d sp with Some n => app sp <$> tail (preorder n) | None => [] end.

(** [querySelectorAll] on the element at [sp], for a selector that the
    predicate [m] decides. *)
Definition query_all (d : node) (sp : path) (m : path -> bool) : list path :=
  filter (fun q => m q = true) (descendants d sp).

(** [document.querySelectorAll]: the same over the whole document. *)
Definition query_document (d : node) (m : path -> bool) : list path :=
  filter (fun q => m q = true) (preorder d).

(** The type selector: the element's local name is [t]. *)
Definition is_tag (d : node) (t : string) (q : path) : bool := bool_decide (tag_at d q = Some t).

(** The descendant combinator: some ancestor satisfies [m]. *)
Definition has_ancestor (m : path -> bool) (q : path) : bool := existsb m (ancestors q).

(** The id selector. *)
Definition has_id (d : node) (i : string) (q : path) : bool :=
  bool_decide (get_attribute d q "id" = Some i).

Lemma descendants_nodup d sp : NoDup (descendants d sp).
Proof.
  unfold descendants. destruct (node_at d sp) as [n|]; [|constructor].
  apply NoDup_fmap; [intros ??; apply app_inv_head|].
  pose proof (preorder_nodup n) as H. destruct (preorder n); simpl; [constructor|].
  by apply NoDup_cons in H as [_ H].
Qed.

#[export] Instance descendants_proper : Proper (same_shape ==> eq ==> eq) descendants.
Proof.
  intros d1 d2 E sp ? <-. unfold descendants.
  assert (skeleton <$> node_at d1 sp = skeleton <$> node_at d2 sp) as H.
  { unfold same_shape in E. by rewrite <- !node_at_skeleton, E. }
  destruct (node_at d1 sp) as [n1|], (node_at d2 sp) as [n2|]; simplify_eq/=; try done.
  by rewrite <- (preorder_skeleton n1), H, preorder_skeleton.
Qed.

(** ** Shared facts for handlers that only add classes *)

Lemma has_class_elem d q u : has_class d q u = true -> is_Some (attrs_at d q).
Proof. unfold has_class. destruct (attrs_at d q); [done|discriminate]. Qed.

(** An element with a class is one of the document's elements. *)
Lemma has_class_preorder d q u : has_class d q u = true -> q ∈ preorder d.
Proof.
  intros Hq. apply elem_of_preorder. apply has_class_elem in Hq. unfold attrs_at in Hq.
  by apply fmap_is_Some in Hq.
Qed.

Lemma has_class_add_class c p d q u :
  ClassList.valid_token c ->
  has_class (add_class c p d) q u =
  has_class d q u || bool_decide (q = p /\ u = c /\ is_Some (attrs_at d p)).
Proof.
  intros Hc. destruct (decide (p = q)) as [<-|Hpq].
  - unfold has_class, add_class. rewrite attrs_at_alter_attrs, decide_True by done.
    destruct (attrs_at d p) as [a|]; simpl.
    + rewrite class_list_add, ClassList.contains_add by done. f_equal.
      apply bool_decide_ext. naive_solver.
    + rewrite bool_decide_eq_false_2; [done|]. intros (_ & _ & [? ?]); discriminate.
  - unfold add_class. rewrite has_class_alter_ne by done.
    rewrite bool_decide_eq_false_2 by naive_solver. by rewrite orb_false_r.
Qed.

Lemma attrs_at_is_Some d q : is_Some (attrs_at d q) <-> is_Some (tag_at d q).
Proof. unfold attrs_at, tag_at. by rewrite !fmap_is_Some. Qed.

Lemma attrs_at_is_Some_shape d d' q :
  same_shape d d' -> is_Some (attrs_at d q) <-> is_Some (attrs_at d' q).
Proof. intros E. rewrite !attrs_at_is_Some. by rewrite (tag_at_proper d d' E q q eq_refl). Qed.

#[export] Instance tag_name_at_proper : Proper (same_shape ==> eq ==> eq) tag_name_at.
Proof. intros d1 d2 E p ? <-. unfold tag_name_at. by rewrite (tag_at_proper d1 d2 E p p eq_refl). Qed.

#[export] Instance add_class_proper c p : Proper (same_shape ==> same_shape) (add_class c p).
Proof.
  intros d1 d2 E. unfold add_class. etransitivity; [apply alter_attrs_same_shape|].
  by rewrite E, alter_attrs_same_shape.
Qed.

Lemma has_class_toggle_class c p d q u :
  ClassList.valid_token c ->
  has_class (toggle_class c p d) q u =
  if decide (q = p /\ u = c /\ is_Some (attrs_at d p)) then negb (has_class d p c)
  else has_class d q u.
Proof.
  intros Hc. destruct (decide (p = q)) as [<-|Hpq].
  - unfold has_class, toggle_class. rewrite attrs_at_alter_attrs, decide_True by done.
    destruct (attrs_at d p) as [a|]; simpl.
    + rewrite class_list_toggle, ClassList.contains_toggle by done.
      repeat case_decide; naive_solver.
    + rewrite decide_False; [done|]. intros (_ & _ & [? ?]); discriminate.
  - rewrite decide_False by naive_solver. unfold toggle_class. by apply has_class_alter_ne.
Qed.

(** The ancestors of a path are its parent and the parent's ancestors. *)
Lemma ancestors_parent p :
  ancestors p = match parent_element p with Some q => q :: ancestors q | None => [] end.
Proof.
  induction p as [|i p IH]; [done|]. cbn [parent_element ancestors].
  destruct p as [|j p]; [done|]. rewrite IH. cbn [parent_element].
  replace (removelast (i :: j :: p)) with (i :: removelast (j :: p)) by done.
  cbn [ancestors fmap list_fmap]. done.
Qed.

Lemma length_removelast_cons i (p : path) : length (removelast (i :: p)) = length p.
Proof.
  revert i. induction p as [|j p IH]; intros i; [done|].
  change (removelast (i :: j :: p)) with (i :: removelast (j :: p)). cbn [length]. by rewrite IH.
Qed.

End Dom.
