(* ===== verification/Html.v ===== *)
(** * The HTML fragment parser behind [this.innerHTML = ...] (line 11)

    Setting [innerHTML] runs the HTML fragment parsing algorithm on the
    string and replaces the element's children with the result.  This file
    models the part of that algorithm the markup of line 11 exercises:

    - the tokenizer, as a step function [tok_step] on the tokenizer states the
      standard names (data, tag open, end tag open, tag name, before
      attribute name, attribute name, before attribute value, attribute
      value (double-quoted), after attribute value), run over the string by
      [run]; tag and attribute names are lower-cased; a repeated attribute
      is dropped; the character references [&amp;], [&lt;], [&gt;],
      [&quot;] are decoded in text and attribute values;
    - the tree builder, as a stack of open elements: a start tag opens an
      element, an end tag closes the current element when the names agree,
      text is appended to the current element.

    Input outside this subset (self-closing tags, unquoted values,
    comments, mismatched end tags, an end of input inside a tag) gives
    [None]: the browser's error recovery is not modelled. *)

From S2P Require Import Prelude ClassList Dom.

Module Html.
Import Dom.

(** The double quote, written by its code: the delimiter of attribute
    values. *)
Definition dquote : ascii := "034"%char.

Definition is_lower (c : ascii) : bool :=
  bool_decide (97 <= nat_of_ascii c <= 122)%nat.

Definition is_alpha (c : ascii) : bool :=
  is_lower c || bool_decide (65 <= nat_of_ascii c <= 90)%nat.

(** ASCII lower case, as the tokenizer applies it to names. *)
Definition ascii_lower (c : ascii) : ascii :=
  let n := nat_of_ascii c in
  if decide (65 <= n <= 90)%nat then ascii_of_nat (n + 32) else c.

Definition snoc (s : string) (c : ascii) : string := s +:+ String c "".

(** ** Character references *)

(** The named references the markup uses, with their semicolon; any
    other [&] is kept as it is. *)
Fixpoint decode (s : string) : string :=
  match s with
  | EmptyString => EmptyString
  | String c r =>
      if decide (c = "&"%char) then
        match r with
        | String "a" (String "m" (String "p" (String ";" r'))) => String "&" (decode r')
        | String "l" (String "t" (String ";" r')) => String "<" (decode r')
        | String "g" (String "t" (String ";" r')) => String ">" (decode r')
        | String "q" (String "u" (String "o" (String "t" (String ";" r')))) =>
            String dquote (decode r')
        | _ => String "&" (decode r)
        end
      else String c (decode r)
  end.

(** ** Tokenizer *)

Inductive token :=
| TStart (name : string) (ats : attrs)
| TEnd (name : string)
| TText (data : string).

Inductive lstate :=
| LData (raw : string)
| LTagOpen
| LEndTagOpen
| LTagName (name : string)
| LEndTagName (name : string)
| LBeforeAttr (name : string) (ats : attrs)
| LAttrName (name : string) (ats : attrs) (an : string)
| LBeforeValue (name : string) (ats : attrs) (an : string)
| LValue (name : string) (ats : attrs) (an : string) (v : string)
| LAfterValue (name : string) (ats : attrs).

(** The text read since the last tag, as a token. *)
Definition flush (raw : string) : list token :=
  if decide (raw = "") then [] else [TText (decode raw)].

(** A repeated attribute name is dropped (a parse error the tokenizer
    recovers from). *)
Definition add_attr (ats : attrs) (an v : string) : attrs :=
  if decide (an ∈ fst <$> ats) then ats else ats ++ [(an, v)].

Definition tok_step (st : lstate) (c : ascii) : option (lstate * list token) :=
  match st with
  | LData raw =>
      if decide (c = "<"%char) then Some (LTagOpen, flush raw) else Some (LData (snoc raw c), [])
  | LTagOpen =>
      if is_alpha c then Some (LTagName (String (ascii_lower c) ""), [])
      else if decide (c = "/"%char) then Some (LEndTagOpen, []) else None
  | LEndTagOpen =>
      if is_alpha c then Some (LEndTagName (String (ascii_lower c) ""), []) else None
  | LTagName n =>
      if ClassList.is_ws c then Some (LBeforeAttr n [], [])
      else if decide (c = ">"%char) then Some (LData "", [TStart n []])
      else if decide (c = "/"%char) then None
      else Some (LTagName (snoc n (ascii_lower c)), [])
  | LEndTagName n =>
      if decide (c = ">"%char) then Some (LData "", [TEnd n])
      else if ClassList.is_ws c || bool_decide (c = "/"%char) then None
      else Some (LEndTagName (snoc n (ascii_lower c)), [])
  | LBeforeAttr n ats =>
      if ClassList.is_ws c then Some (LBeforeAttr n ats, [])
      else if decide (c = ">"%char) then Some (LData "", [TStart n ats])
      else if bool_decide (c = "/"%char) || bool_decide (c = "="%char) then None
      else Some (LAttrName n ats (String (ascii_lower c) ""), [])
  | LAttrName n ats an =>
      if decide (c = "="%char) then Some (LBeforeValue n ats an, [])
      else if decide (c = ">"%char) then Some (LData "", [TStart n (add_attr ats an "")])
      else if ClassList.is_ws c || bool_decide (c = "/"%char) || bool_decide (c = dquote) then None
      else Some (LAttrName n ats (snoc an (ascii_lower c)), [])
  | LBeforeValue n ats an =>
      if decide (c = dquote) then Some (LValue n ats an "", []) else None
  | LValue n ats an v =>
      if decide (c = dquote) then Some (LAfterValue n (add_attr ats an (decode v)), [])
      else Some (LValue n ats an (snoc v c), [])
  | LAfterValue n ats =>
      if ClassList.is_ws c then Some (LBeforeAttr n ats, [])
      else if decide (c = ">"%char) then Some (LData "", [TStart n ats])
      else None
  end.

(** The tokens emitted while reading [s] from state [st], and the state
    reached. *)
Fixpoint run (st : lstate) (s : string) : option (lstate * list token) :=
  match s with
  | EmptyString => Some (st, [])
  | String c s' =>
      match tok_step st c with
      | Some (st1, t1) =>
          match run st1 s' with Some (st2, t2) => Some (st2, t1 ++ t2) | None => None end
      | None => None
      end
  end.

(** The end of the input emits the pending text; it is an error inside a
    tag. *)
Definition tokenize (s : string) : option (list token) :=
  match run (LData "") s with
  | Some (LData raw, ts) => Some (ts ++ flush raw)
  | _ => None
  end.

(** ** Tree builder *)

(** The open elements (innermost first, with their children so far in
    reverse) and the fragment's nodes so far in reverse. *)
Definition bstate : Type := list (string * attrs * list node) * list node.

(** Append a node to the current element, or to the fragment. *)
Definition insert_node (k : node) (s : bstate) : bstate :=
  match s.1 with
  | (n, a, kids) :: fs => ((n, a, k :: kids) :: fs, s.2)
  | [] => ([], k :: s.2)
  end.

Definition bstep (s : bstate) (t : token) : option bstate :=
  match t with
  | TStart n a => Some ((n, a, []) :: s.1, s.2)
  | TText d => Some (insert_node (Text d) s)
  | TEnd n =>
      match s.1 with
      | (n', a, kids) :: fs =>
          if decide (n = n') then Some (insert_node (Element n' a (rev kids)) (fs, s.2)) else None
      | [] => None
      end
  end.

Fixpoint build (s : bstate) (ts : list token) : option bstate :=
  match ts with
  | [] => Some s
  | t :: ts' => match bstep s t with Some s' => build s' ts' | None => None end
  end.

(** Every element must be closed at the end. *)
Definition tree_construct (ts : list token) : option (list node) :=
  match build ([], []) ts with
  | Some ([], root) => Some (rev root)
  | _ => None
  end.

Definition parse_fragment (s : string) : option (list node) :=
  match tokenize s with Some ts => tree_construct ts | None => None end.

End Html.
