(* ===== verification/Browser.v ===== *)
(** * What the script asks of the browser

    Two services are interfaces, stated as type classes so that the
    handler's theorems hold for every browser that provides them:
    - [UrlResolver]: the URL parser behind the [href] getter of an [<a>]
      (line 26 compares [link.href], the resolved URL, with the page);
    - [Layout]: the largest [scrollTop] of the sidebar, the offset that
      [scrollIntoView({block: 'center'})] gives it (line 57), and the
      scroll position the element takes for a requested offset (browsers
      snap fractional offsets to their own pixel grid); its laws: integer
      offsets are kept, and the scroll range stays below 2^53 (the safe
      integers of a double), as layout sizes are bounded.
    [sessionStorage] is a finite map from strings to strings (stdpp's
    [gmap]).  The file also gives one instance of each service: URL
    resolution for hierarchical URLs as in RFC 3986 (section 5.2, with
    dot-segment removal), and a fixed-row layout, used to run the handler
    on the book's pages in [Markup]. *)

From S2P Require Import Prelude JsString Dom.
From Stdlib Require Import QArith Qround.

Module Browser.
Import Dom.

Class UrlResolver := {
  (** [resolve base input]: the serialized URL of [input] parsed against
      [base], or [None] when parsing fails. *)
  resolve : string -> string -> option string
}.

Class Layout := {
  scroll_max : node -> path -> Z;
  center_scroll : node -> path -> path -> Z;
  scroll_snap : Q -> Z;
  scroll_snap_Z z : scroll_snap (inject_Z z) = z;
  scroll_max_safe d q : (scroll_max d q < 2 ^ 53)%Z
}.

(** The [href] getter of an [<a>] element: the URL of its [href] attribute
    resolved against the document's URL; the attribute itself when it does
    not parse; [""] when there is no attribute. *)
Definition href_prop `{UrlResolver} (base : string) (d : node) (p : path) : string :=
  match get_attribute d p "href" with
  | None => ""
  | Some v => default v (resolve base v)
  end.

(** The [scrollTop] setter (CSSOM View): a non-finite value becomes 0,
    and the position is clamped to the scrollable range. *)
Definition clamp_scroll (max : Z) (v : option Z) : Z :=
  match v with None => 0%Z | Some z => Z.max 0 (Z.min max z) end.

(** The scroll position the setter is asked for, from the number the
    assigned value converts to: [None] for [NaN] and the infinities. *)
Definition scroll_request `{Layout} (n : Js.number) : option Z := scroll_snap <$> Js.finite n.

Abbreviation storage := (gmap string string).

Lemma clamp_scroll_in_range max z : (0 <= z <= max)%Z -> clamp_scroll max (Some z) = z.
Proof. simpl. lia. Qed.

Lemma clamp_scroll_nonneg max v : (0 <= clamp_scroll max v)%Z.
Proof. destruct v; simpl; lia. Qed.

(** ** A resolver for hierarchical URLs

    The reference resolution of RFC 3986 (section 5.2) for a base of the
    form [scheme://authority/path]: a reference with a scheme is kept, a
    network-path reference takes the base's scheme, an absolute path the
    base's authority, a fragment the whole base, and a relative path is
    merged with the base's directory; dot segments are then removed.
    Queries are not split from the path. *)
Module Rfc3986.

(** Split on ["/"]. *)
Fixpoint segments (s : string) : list string :=
  match s with
  | EmptyString => [""]
  | String c s' =>
      if decide (c = "/"%char) then "" :: segments s'
      else match segments s' with
           | [] => [String c ""]
           | w :: ws => String c w :: ws
           end
  end.

Fixpoint join_segments (ws : list string) : string :=
  match ws with
  | [] => ""
  | [w] => w
  | w :: ws' => w +:+ "/" +:+ join_segments ws'
  end.

(** RFC 3986, 5.2.4, on segment lists; [acc] holds the output reversed. *)
Fixpoint remove_dots (acc : list string) (ws : list string) : list string :=
  match ws with
  | [] => reverse acc
  | w :: ws' =>
      if decide (w = ".") then
        (if decide (ws' = []) then reverse ("" :: acc) else remove_dots acc ws')
      else if decide (w = "..") then
        (if decide (ws' = []) then reverse ("" :: tail acc) else remove_dots (tail acc) ws')
      else remove_dots (w :: acc) ws'
  end.

(** [scheme://authority/path] as (scheme, authority, path segments). *)
Definition parse_base (base : string) : option (string * string * list string) :=
  let b := Js.split_first "#" base in
  let '(sch, rest) := Js.span (fun c => negb (bool_decide (c = ":"%char))) b in
  match rest with
  | String _ (String "/" (String "/" r)) =>
      let '(auth, p) := Js.span (fun c => negb (bool_decide (c = "/"%char))) r in
      match p with
      | String _ p' => Some (sch, auth, segments p')
      | EmptyString => Some (sch, auth, [""])
      end
  | _ => None
  end.

(** ALPHA / DIGIT / "+" / "-" / "." *)
Definition url_scheme_char (c : ascii) : bool :=
  let n := nat_of_ascii c in
  bool_decide (65 <= n <= 90 \/ 97 <= n <= 122 \/ 48 <= n <= 57 \/ n = 43 \/ n = 45 \/ n = 46)%nat.

Definition has_scheme (r : string) : bool :=
  let '(sch, rest) := Js.span url_scheme_char r in
  bool_decide (sch <> "") && Js.starts_with rest ":".

Definition resolve_ref (base r : string) : option string :=
  match parse_base base with
  | None => None
  | Some (sch, auth, ws) =>
      let origin := sch +:+ "://" +:+ auth in
      if Js.starts_with r "#" then Some (Js.split_first "#" base +:+ r)
      else if has_scheme r then Some r
      else if Js.starts_with r "//" then Some (sch +:+ ":" +:+ r)
      else if Js.starts_with r "/" then
        Some (origin +:+ "/" +:+ join_segments (remove_dots [] (tail (segments r))))
      else Some (origin +:+ "/" +:+ join_segments (remove_dots [] (removelast ws ++ segments r)))
  end.

#[export] Instance rfc3986_resolver : UrlResolver := {| resolve := resolve_ref |}.

End Rfc3986.

(** ** A layout of fixed-height rows

    Each element below the sidebar is one row of [row] pixels; the sidebar
    shows [visible] rows.  [scrollIntoView({block: 'center'})] puts the
    row in the middle.  Offsets are truncated to whole pixels, and the
    range is capped below 2^53. *)
Lemma rows_max_safe x : (Z.min (2 ^ 53 - 1) x < 2 ^ 53)%Z.
Proof. lia. Qed.

Definition rows_layout (row visible : Z) : Layout := {|
  scroll_max d sp :=
    Z.min (2 ^ 53 - 1) (Z.max 0 (row * Z.of_nat (length (descendants d sp)) - row * visible))%Z;
  center_scroll d sp q :=
    match list_find (fun x => x = q) (descendants d sp) with
    | Some (i, _) => (row * Z.of_nat i - row * visible / 2)%Z
    | None => 0%Z
    end;
  scroll_snap := Qfloor;
  scroll_snap_Z := Qfloor_Z;
  scroll_max_safe d sp := rows_max_safe _
|}.

End Browser.
