(* ===== verification/Markup.v ===== *)
(** * The table of contents of line 11

    [connectedCallback] starts by setting [this.innerHTML] to a literal
    markup string.  [toc_markup] is that literal, character for character;
    the source writes it between single quotes and uses double quotes
    inside, and so that the transcription needs no escaped quotes it is
    written here with single quotes, turned back into double quotes by
    [js_quotes] (the literal holds no single quote of its own).
    [toc_nodes], the children the [innerHTML] setter gives the element, is
    the result of the fragment parser of [Html] on it.

    [toc_tree] writes that tree out by hand: an [<ol class="chapter">]
    whose items are [<li class="chapter-item expanded ">] entries holding
    one [<a href=...>] each, with nested [<li><ol class="section">] lists
    after the items they belong to.  The entity [&amp;] of the source is
    the character [&] in the text nodes. *)

From S2P Require Import Prelude Dom Html.

Module Markup.
Import Dom.

(** [<li class="chapter-item expanded "><a href="...">label</a></li>] *)
Definition chapter_item (href label : string) : node :=
  Element "li" [("class", "chapter-item expanded ")]
    [Element "a" [("href", href)] [Text label]].

(** [<li><ol class="section">...</ol></li>] *)
Definition section (items : list node) : node :=
  Element "li" [] [Element "ol" [("class", "section")] items].

Definition toc_tree : list node :=
  [Element "ol" [("class", "chapter")]
    [Element "li" [("class", "chapter-item expanded affix ")]
       [Element "a" [("href", "GLOSSARY.html")] [Text "Glossary"]];
     chapter_item "index.html" "Approved";
     section
       [chapter_item "index.html" "HIPs";
        section
          [chapter_item "Approved/main/HIP/hip-1/index.html"
             "HIP-1: Native On-chain Cron Scheduling (Chronos Module & Precompile)";
           chapter_item "Approved/main/HIP/hip-2/index.html"
             "HIP-2: Delegation Boost for Enhanced Staking";
           chapter_item "Approved/main/HIP/hip-3/index.html"
             "HIP-3: Smart Contract Creator Incentives";
           chapter_item "Approved/main/HIP/hip-4/index.html"
             "HIP-4: External Data Call Support via Hyperions"];
        chapter_item "index.html" "HDs";
        section
          [chapter_item "Approved/main/HD/hd-1/index.html" "HD-1: Chronos Module & Precompile";
           chapter_item "Approved/main/HD/hd-2/index.html"
             "HD-2: Delegation Boost for Enhanced Staking";
           chapter_item "Approved/main/HD/hd-3/index.html" "HD-3";
           chapter_item "Approved/main/HD/hd-4/index.html"
             "HD-4: External Data Call Support via Hyperions"]];
     chapter_item "index.html" "Review"]].

(** Single quotes to double quotes. *)
Fixpoint js_quotes (s : string) : string :=
  match s with
  | EmptyString => EmptyString
  | String c r => String (if decide (c = "'"%char) then Html.dquote else c) (js_quotes r)
  end.

(** The string literal of line 11. *)
Definition toc_markup : string :=
  js_quotes
  ("<ol class='chapter'>"
  +:+ "<li class='chapter-item expanded affix '><a href='GLOSSARY.html'>Glossary</a></li>"
  +:+ "<li class='chapter-item expanded '><a href='index.html'>Approved</a></li>"
  +:+ "<li><ol class='section'><li class='chapter-item expanded '><a href='index.html'>HIPs</a></li>"
  +:+ "<li><ol class='section'>"
  +:+ "<li class='chapter-item expanded '><a href='Approved/main/HIP/hip-1/index.html'>HIP-1: Native On-chain Cron Scheduling (Chronos Module &amp; Precompile)</a></li>"
  +:+ "<li class='chapter-item expanded '><a href='Approved/main/HIP/hip-2/index.html'>HIP-2: Delegation Boost for Enhanced Staking</a></li>"
  +:+ "<li class='chapter-item expanded '><a href='Approved/main/HIP/hip-3/index.html'>HIP-3: Smart Contract Creator Incentives</a></li>"
  +:+ "<li class='chapter-item expanded '><a href='Approved/main/HIP/hip-4/index.html'>HIP-4: External Data Call Support via Hyperions</a></li></ol></li>"
  +:+ "<li class='chapter-item expanded '><a href='index.html'>HDs</a></li><li><ol class='section'>"
  +:+ "<li class='chapter-item expanded '><a href='Approved/main/HD/hd-1/index.html'>HD-1: Chronos Module &amp; Precompile</a></li>"
  +:+ "<li class='chapter-item expanded '><a href='Approved/main/HD/hd-2/index.html'>HD-2: Delegation Boost for Enhanced Staking</a></li>"
  +:+ "<li class='chapter-item expanded '><a href='Approved/main/HD/hd-3/index.html'>HD-3</a></li>"
  +:+ "<li class='chapter-item expanded '><a href='Approved/main/HD/hd-4/index.html'>HD-4: External Data Call Support via Hyperions</a></li></ol></li></ol></li>"
  +:+ "<li class='chapter-item expanded '><a href='index.html'>Review</a></li></ol>").

(** [this.innerHTML = toc_markup]: the children the element gets. *)
Definition toc_nodes : list node :=
  match Html.parse_fragment toc_markup with Some ns => ns | None => [] end.

(** The parser reads the literal without error, and builds exactly the
    tree written out in [toc_tree]. *)
Lemma toc_nodes_tree : toc_nodes = toc_tree.
Proof. vm_compute. reflexivity. Qed.

End Markup.
