(* ===== verification/Sidebar.v ===== *)
(** * [MDBookSidebarScrollbox.connectedCallback] (src/toc.js, lines 10-68)

    One definition per step of the callback, composed in the order of the
    source:
    - [current_page]: lines 13-16;
    - [link_step] and [link_loop]: the [for] loop of lines 17-41, with
      [rewrite_link] (lines 21-24), [is_current] (line 26) and [mark_active]
      (lines 27-39: [expand_parent] for lines 28-31, [expand_while] for
      the [while] loop of lines 32-39 as written, run by
      [expand_ancestors] with enough fuel);
    - [restore_scroll]: lines 48-59, reading and removing the
      sessionStorage key and setting [scrollTop];
    - [sidebar_toggles] and the registration of [toggleSection]: lines
      61-67;
    - [connected_callback]: the whole callback on a [page] and the
      sessionStorage;
    - [save_scroll] and [toggle_section]: the two event listeners, run by
      [dispatch_click] for a click on a node. *)

From S2P Require Import Prelude JsString ClassList Dom Browser Markup.

Module Sidebar.
Import Dom Browser.

(** The listeners the script registers. *)
Inductive handler :=
| SaveScroll      (* the anonymous click listener of lines 43-47 *)
| ToggleSection.  (* [toggleSection], lines 62-64 *)

#[export] Instance handler_eq_dec : EqDecision handler.
Proof. solve_decision. Defined.

(** What a page holds that the script reads or writes. *)
Record page := {
  doc : node;                         (* the document *)
  location : string;                  (* [document.location.href] *)
  path_to_root : string;              (* the global [path_to_root] *)
  sidebar : path;                     (* the custom element, [this] *)
  scroll_top : Z;                     (* [this.scrollTop] *)
  listeners : list (path * handler)   (* registered click listeners *)
}.

Definition scroll_key : string := "sidebar-scroll".
#[global] Arguments scroll_key : simpl never.

Section Handler.
Context `{UrlResolver} `{Layout}.

(** Lines 13-16. *)
Definition current_page (href : string) : string :=
  let p := Js.split_first "#" href in
  if Js.ends_with p "/" then p +:+ "index.html" else p.

(** The condition of line 22. *)
Definition should_rewrite (href : option string) : bool :=
  match href with
  | Some h => bool_decide (h <> "") && negb (Js.starts_with h "#") && negb (Js.is_absolute_url h)
  | None => false
  end.

(** Lines 21-24. *)
Definition rewrite_link (ptr : string) (p : path) (d : node) : node :=
  match get_attribute d p "href" with
  | Some h => if should_rewrite (Some h) then set_attribute "href" (ptr +:+ h) p d else d
  | None => d
  end.

(** Line 26: the link's resolved [href] is the current page, or it is the
    first link, [path_to_root] is empty and the page is an index page. *)
Definition is_current (loc ptr cur : string) (i : nat) (p : path) (d : node) : bool :=
  bool_decide (href_prop loc d p = cur) ||
  (bool_decide (i = 0%nat) && bool_decide (ptr = "") && Js.ends_with cur "/index.html").

(** Lines 28-31. *)
Definition expand_parent (p : path) (d : node) : node :=
  match parent_element p with
  | Some q => if has_class d q "chapter-item" then add_class "expanded" q d else d
  | None => d
  end.

(** The body of the [while] loop, lines 33-37, for [parent] at [q]. *)
Definition expand_prev_sibling (q : path) (d : node) : node :=
  if bool_decide (tag_name_at d q = Some "LI") then
    match prev_element_sibling d q with
    | Some s => if has_class d s "chapter-item" then add_class "expanded" s d else d
    | None => d
    end
  else d.

(** The [while] loop of lines 32-39 as written: [parent] starts at the
    link's [parentElement] (line 28), the body runs for it, and line 38
    moves it to its own [parentElement], until it is [null].  [fuel]
    bounds the number of tests of the loop condition; [None] when it runs
    out. *)
Fixpoint expand_while (fuel : nat) (parent : option path) (d : node) : option node :=
  match fuel with
  | O => None
  | S f =>
      match parent with
      | None => Some d
      | Some q => expand_while f (parent_element q) (expand_prev_sibling q d)
      end
  end.

(** Lines 32-39 for the link at [p]: a path of length [n] has [n]
    ancestors, so the condition is tested [n + 1] times
    ([LinkLoop.expand_while_terminates]); the default is never taken. *)
Definition expand_ancestors (p : path) (d : node) : node :=
  default d (expand_while (S (length p)) (parent_element p) d).

(** Lines 27-39. *)
Definition mark_active (p : path) (d : node) : node :=
  expand_ancestors p (expand_parent p (add_class "active" p d)).

(** One iteration of the [for] loop, lines 20-40. *)
Definition link_step (loc ptr cur : string) (i : nat) (p : path) (d : node) : node :=
  let d1 := rewrite_link ptr p d in
  if is_current loc ptr cur i p d1 then mark_active p d1 else d1.

(** Lines 18-41, from index [i] on. *)
Fixpoint link_loop (loc ptr cur : string) (i : nat) (links : list path) (d : node) : node :=
  match links with
  | [] => d
  | p :: ps => link_loop loc ptr cur (S i) ps (link_step loc ptr cur i p d)
  end.

(** [document.querySelector('#sidebar .active')], line 55. *)
Definition sidebar_active (d : node) : option path :=
  head (query_document d (fun q => has_ancestor (has_id d "sidebar") q && has_class d q "active")).

(** [document.querySelectorAll('#sidebar a.toggle')], line 61. *)
Definition sidebar_toggles (d : node) : list path :=
  query_document d
    (fun q => has_ancestor (has_id d "sidebar") q && is_tag d "a" q && has_class d q "toggle").

(** JavaScript truthiness of what [getItem] returns: [null] and [""] are
    false. *)
Definition truthy (v : option string) : bool :=
  match v with Some s => bool_decide (s <> "") | None => false end.

Definition with_doc (pg : page) (d : node) : page :=
  {| doc := d; location := location pg; path_to_root := path_to_root pg; sidebar := sidebar pg;
     scroll_top := scroll_top pg; listeners := listeners pg |}.

Definition with_scroll (pg : page) (z : Z) : page :=
  {| doc := doc pg; location := location pg; path_to_root := path_to_root pg;
     sidebar := sidebar pg; scroll_top := z; listeners := listeners pg |}.

Definition with_listeners (pg : page) (ls : list (path * handler)) : page :=
  {| doc := doc pg; location := location pg; path_to_root := path_to_root pg;
     sidebar := sidebar pg; scroll_top := scroll_top pg; listeners := ls |}.

(** Lines 55-58: [scrollIntoView({block: 'center'})] on the first
    [#sidebar .active] element, if any. *)
Definition scroll_to_active (pg : page) : page :=
  match sidebar_active (doc pg) with
  | Some a =>
      with_scroll pg (clamp_scroll (scroll_max (doc pg) (sidebar pg))
                        (Some (center_scroll (doc pg) (sidebar pg) a)))
  | None => pg
  end.

(** Lines 48-59: read the key, remove it, then restore the offset or
    center the active entry.  The assignment of line 52 converts the
    stored string to a number. *)
Definition restore_scroll (pg : page) (st : storage) : page * storage :=
  let stored := st !! scroll_key in
  let st' := delete scroll_key st in
  if truthy stored then
    (with_scroll pg (clamp_scroll (scroll_max (doc pg) (sidebar pg))
                       (scroll_request (Js.string_to_number (default "" stored)))), st')
  else (scroll_to_active pg, st').

(** Line 17: the links of the sidebar, in document order. *)
Definition toc_links (d : node) (sp : path) : list path := query_all d sp (is_tag d "a").

(** Lines 11-41: the document after the table of contents is inserted and
    the link loop has run. *)
Definition rendered_doc (pg : page) : node :=
  let d1 := set_children Markup.toc_nodes (sidebar pg) (doc pg) in
  link_loop (location pg) (path_to_root pg) (current_page (location pg)) 0
    (toc_links d1 (sidebar pg)) d1.

(** The whole callback, lines 11-67. *)
Definition connected_callback (pg : page) (st : storage) : page * storage :=
  let pg1 := with_listeners (with_doc pg (rendered_doc pg)) (listeners pg ++ [(sidebar pg, SaveScroll)]) in
  let '(pg2, st2) := restore_scroll pg1 st in
  (with_listeners pg2
     (listeners pg2 ++ ((fun q => (q, ToggleSection)) <$> sidebar_toggles (doc pg2))), st2).

(** The click listener of lines 43-47 for a click whose target is [t]:
    [this] is the sidebar, whose offset is [scroll_top]. *)
Definition save_scroll (t : path) (pg : page) (st : storage) : page * storage :=
  if bool_decide (tag_name_at (doc pg) t = Some "A")
  then (pg, <[scroll_key := Js.number_to_string (scroll_top pg)]> st)
  else (pg, st).

(** [toggleSection], lines 62-64, registered on [ct].  Without a parent
    element the call throws; the exception is reported and dispatch goes
    on, so the page is unchanged. *)
Definition toggle_section (ct : path) (pg : page) : page :=
  match parent_element ct with
  | Some r => with_doc pg (toggle_class "expanded" r (doc pg))
  | None => pg
  end.

(** One listener, registered on [l.1], for a click whose target is [t]. *)
Definition run_listener (t : path) (acc : page * storage) (l : path * handler) : page * storage :=
  match l.2 with
  | SaveScroll => save_scroll t acc.1 acc.2
  | ToggleSection => (toggle_section l.1 acc.1, acc.2)
  end.

(** Dispatch of a click on the element at [t]: the listeners of the
    target, then of each ancestor up to the root, each node's listeners in
    the order they were added. *)
Definition dispatch_click (t : path) (pg : page) (st : storage) : page * storage :=
  fold_left
    (fun acc n => fold_left (fun acc l => if bool_decide (l.1 = n) then run_listener t acc l else acc)
                    (listeners pg) acc)
    (t :: ancestors t) (pg, st).

End Handler.
End Sidebar.
