(* ===== verification/LinkLoop.v ===== *)
(** * The link loop of lines 17-41 against its specification

    [link_loop] visits the links in document order and mutates the
    document as it goes; its result is described here on the document
    before the loop:
    - every link's [href] is rewritten once (line 23), by [rewritten_href];
    - a link is marked [active] exactly when [current_spec] holds of it:
      its rewritten [href] resolves to the current page, or it is the
      index alias of line 26;
    - the entries marked [expanded] are the [expand_targets] of the marked
      links: the parent [chapter-item] (lines 29-31) and the previous
      [chapter-item] sibling of each [<li>] ancestor (lines 33-37);
    - nothing else changes: no other attribute, no other class, and not the
      shape of the tree.
    The proof composes one frame lemma per step with the relation [adds]:
    the document changes by adding classes only.  Its consequences: the
    link that matches the page and its expansion targets are marked; the
    index alias marks the first link besides the matching ones; with
    distinct targets and the alias off, at most one element is active. *)

From S2P Require Import Prelude JsString ClassList Dom Browser Sidebar.

Module LinkLoop.
Import Dom Browser Sidebar.

(** [d'] is [d] with classes added: same shape, same attributes other
    than [class], and [u] is a class of [q] in [d'] exactly when it was in
    [d] or [T u q]. *)
Definition adds (d d' : node) (T : string -> path -> Prop) : Prop :=
  same_shape d' d /\
  (forall q k, k <> "class" -> get_attribute d' q k = get_attribute d q k) /\
  (forall q u, has_class d' q u = true <-> has_class d q u = true \/ T u q).

Lemma adds_refl d : adds d d (fun _ _ => False).
Proof. split_and!; [done|done|naive_solver]. Qed.

Lemma adds_trans d d1 d2 T1 T2 :
  adds d d1 T1 -> adds d1 d2 T2 -> adds d d2 (fun u q => T1 u q \/ T2 u q).
Proof.
  intros (E1 & A1 & C1) (E2 & A2 & C2). split_and!.
  - by rewrite E2.
  - intros q k Hk. by rewrite A2, A1.
  - intros q u. rewrite C2, C1. naive_solver.
Qed.

Lemma adds_iff d d' T T' : adds d d' T -> (forall u q, T u q <-> T' u q) -> adds d d' T'.
Proof. intros (E & A & C) HT. split_and!; [done|done|]. intros q u. rewrite C, HT. done. Qed.

Lemma valid_token_active : ClassList.valid_token "active".
Proof. by split. Qed.

Lemma valid_token_expanded : ClassList.valid_token "expanded".
Proof. by split. Qed.

#[export] Hint Resolve valid_token_active valid_token_expanded : toc.

Lemma adds_add_class c p d :
  ClassList.valid_token c -> adds d (add_class c p d) (fun u q => u = c /\ q = p /\ is_Some (attrs_at d p)).
Proof.
  intros Hc. split_and!.
  - apply alter_attrs_same_shape.
  - intros q k Hk. by apply get_attribute_add_class.
  - intros q u. rewrite has_class_add_class, orb_true_iff, bool_decide_eq_true by done. naive_solver.
Qed.

(** Classes other than the added ones stay, so do the structural queries. *)
Lemma adds_has_class d d' T q u : adds d d' T -> (forall q, ~ T u q) -> has_class d' q u = has_class d q u.
Proof.
  intros (_ & _ & C) HT. specialize (C q u).
  destruct (has_class d' q u), (has_class d q u); naive_solver.
Qed.

(** ** What [mark_active] expands *)

(** The entry the body of the [while] loop expands for the ancestor [q]. *)
Definition sibling_target (d : node) (q : path) : option path :=
  if bool_decide (tag_name_at d q = Some "LI") then
    match prev_element_sibling d q with
    | Some s => if has_class d s "chapter-item" then Some s else None
    | None => None
    end
  else None.

(** The parent [chapter-item] of lines 29-31. *)
Definition parent_targets (d : node) (p : path) : list path :=
  match parent_element p with
  | Some q => if has_class d q "chapter-item" then [q] else []
  | None => []
  end.

Definition expand_targets (d : node) (p : path) : list path :=
  parent_targets d p ++ omap (sibling_target d) (ancestors p).

(** The targets depend on the shape and on the [chapter-item] classes. *)
Definition chapter_frame (d d' : node) : Prop :=
  same_shape d' d /\ forall q, has_class d' q "chapter-item" = has_class d q "chapter-item".

Lemma adds_chapter_frame d d' T :
  adds d d' T -> (forall q, ~ T "chapter-item" q) -> chapter_frame d d'.
Proof. intros HA HT. split; [apply HA|]. intros q. by eapply adds_has_class. Qed.

Lemma sibling_target_frame d d' q : chapter_frame d d' -> sibling_target d' q = sibling_target d q.
Proof.
  intros [E Hc]. unfold sibling_target. rewrite (tag_name_at_proper d' d E q q eq_refl),
    (prev_element_sibling_proper d' d E q q eq_refl).
  destruct (prev_element_sibling d q); [by rewrite Hc|done].
Qed.

Lemma omap_sibling_frame d d' (l : list path) :
  chapter_frame d d' -> omap (sibling_target d') l = omap (sibling_target d) l.
Proof.
  intros HF. apply list_omap_ext, Forall2_same_length_lookup. split; [done|].
  intros i x y Hx Hy. simplify_eq. by apply sibling_target_frame.
Qed.

Lemma parent_targets_frame d d' p : chapter_frame d d' -> parent_targets d' p = parent_targets d p.
Proof.
  intros [_ Hc]. unfold parent_targets. destruct (parent_element p); [by rewrite Hc|done].
Qed.

Lemma expand_targets_frame d d' p : chapter_frame d d' -> expand_targets d' p = expand_targets d p.
Proof.
  intros HF. unfold expand_targets. by rewrite (omap_sibling_frame d d'), (parent_targets_frame d d').
Qed.

Lemma expand_prev_sibling_adds q d :
  adds d (expand_prev_sibling q d) (fun u r => u = "expanded" /\ sibling_target d q = Some r).
Proof.
  unfold expand_prev_sibling, sibling_target.
  case_bool_decide; [|eapply adds_iff; [apply adds_refl|naive_solver]].
  destruct (prev_element_sibling d q) as [s|]; [|eapply adds_iff; [apply adds_refl|naive_solver]].
  destruct (has_class d s "chapter-item") eqn:Hs; [|eapply adds_iff; [apply adds_refl|naive_solver]].
  eapply adds_iff; [apply adds_add_class; auto with toc|].
  pose proof (has_class_elem _ _ _ Hs). naive_solver.
Qed.

(** The loop of lines 32-39 with more fuel than the depth of the link is
    the walk over the link's ancestors. *)
Lemma expand_while_fold fuel p d :
  length p < fuel ->
  expand_while fuel (parent_element p) d =
  Some (fold_left (fun d q => expand_prev_sibling q d) (ancestors p) d).
Proof.
  revert p d. induction fuel as [|f IH]; intros p d Hf; [lia|].
  rewrite (ancestors_parent p). destruct p as [|i p']; [done|].
  cbn [parent_element expand_while fold_left]. apply IH.
  rewrite length_removelast_cons. simpl in Hf. lia.
Qed.

Lemma expand_ancestors_fold p d :
  expand_ancestors p d = fold_left (fun d q => expand_prev_sibling q d) (ancestors p) d.
Proof. unfold expand_ancestors. by rewrite expand_while_fold by lia. Qed.

Lemma expand_while_short fuel p d : fuel <= length p -> expand_while fuel (parent_element p) d = None.
Proof.
  revert p d. induction fuel as [|f IH]; intros p d Hf; [done|].
  destruct p as [|i p']; [simpl in Hf; lia|].
  cbn [parent_element expand_while]. apply IH. rewrite length_removelast_cons. simpl in Hf. lia.
Qed.

(** C13: The [while] loop of lines 32-39 terminates: for a link at depth [n]
    its condition is tested exactly [n + 1] times.  With more fuel the
    loop exits with the result of [expand_ancestors], whatever the fuel;
    with [n] tests or fewer allowed it has not finished. *)
Theorem expand_while_terminates fuel p d :
  expand_while fuel (parent_element p) d =
  if decide (length p < fuel) then Some (expand_ancestors p d) else None.
Proof.
  case_decide.
  - by rewrite expand_while_fold, expand_ancestors_fold.
  - apply expand_while_short. lia.
Qed.

Lemma expand_ancestors_adds p d :
  adds d (expand_ancestors p d)
    (fun u r => u = "expanded" /\ r ∈ omap (sibling_target d) (ancestors p)).
Proof.
  rewrite expand_ancestors_fold. generalize (ancestors p) as qs.
  intros qs. revert d. induction qs as [|q qs IH]; intros d; simpl.
  - eapply adds_iff; [apply adds_refl|]. set_solver.
  - eapply adds_iff; [eapply adds_trans; [apply expand_prev_sibling_adds|apply IH]|].
    intros u r. rewrite (omap_sibling_frame d);
      [|eapply adds_chapter_frame; [apply expand_prev_sibling_adds|naive_solver]].
    destruct (sibling_target d q) eqn:Hq; set_solver.
Qed.

Lemma expand_parent_adds p d :
  adds d (expand_parent p d) (fun u r => u = "expanded" /\ r ∈ parent_targets d p).
Proof.
  unfold expand_parent, parent_targets. destruct (parent_element p) as [q|];
    [|eapply adds_iff; [apply adds_refl|set_solver]].
  destruct (has_class d q "chapter-item") eqn:Hq; [|eapply adds_iff; [apply adds_refl|set_solver]].
  eapply adds_iff; [apply adds_add_class; auto with toc|].
  pose proof (has_class_elem _ _ _ Hq). set_solver.
Qed.

(** Lines 27-39: the link gets [active], its expand targets [expanded]. *)
Theorem mark_active_adds p d :
  adds d (mark_active p d)
    (fun u q => (u = "active" /\ q = p /\ is_Some (attrs_at d p)) \/
                (u = "expanded" /\ q ∈ expand_targets d p)).
Proof.
  unfold mark_active.
  pose proof (adds_add_class "active" p d valid_token_active) as H1.
  pose proof (expand_parent_adds p (add_class "active" p d)) as H2.
  pose proof (expand_ancestors_adds p (expand_parent p (add_class "active" p d))) as H3.
  pose proof (adds_trans _ _ _ _ _ H1 H2) as H12.
  eapply adds_iff; [exact (adds_trans _ _ _ _ _ H12 H3)|].
  rewrite (omap_sibling_frame d) by (eapply adds_chapter_frame; [exact H12|naive_solver]).
  rewrite (parent_targets_frame d) by (eapply adds_chapter_frame; [exact H1|naive_solver]).
  unfold expand_targets. intros u q. rewrite elem_of_app. naive_solver.
Qed.

(** Every expanded entry is a [chapter-item]. *)
Lemma expand_targets_chapter d p q : q ∈ expand_targets d p -> has_class d q "chapter-item" = true.
Proof.
  unfold expand_targets, parent_targets, sibling_target. rewrite elem_of_app, list_elem_of_omap.
  intros [Hq|(q' & _ & Hq)].
  - destruct (parent_element p); [|set_solver]. destruct (has_class d p0 _) eqn:E; set_solver.
  - case_bool_decide; [|done]. destruct (prev_element_sibling d q') as [s|]; [|done].
    destruct (has_class d s _) eqn:E; [by simplify_eq|done].
Qed.

(** ** One iteration and the whole loop *)

Section Loop.
Context `{UrlResolver}.
Variables (loc ptr cur : string).

(** The [href] attribute after line 23. *)
Definition rewritten_href (h : option string) : option string :=
  match h with
  | Some v => if should_rewrite (Some v) then Some (ptr +:+ v) else Some v
  | None => None
  end.

(** What the [href] getter returns for an attribute value. *)
Definition resolved (h : option string) : string :=
  match h with None => "" | Some v => default v (resolve loc v) end.

(** The second disjunct of line 26. *)
Definition index_alias (i : nat) : bool :=
  bool_decide (i = 0%nat) && bool_decide (ptr = "") && Js.ends_with cur "/index.html".

(** The condition of line 26, on the document before the loop. *)
Definition current_spec (d : node) (i : nat) (p : path) : bool :=
  bool_decide (resolved (rewritten_href (get_attribute d p "href")) = cur) || index_alias i.

Lemma rewrite_link_href p d q :
  get_attribute (rewrite_link ptr p d) q "href" =
  if decide (q = p) then rewritten_href (get_attribute d p "href") else get_attribute d q "href".
Proof.
  unfold rewrite_link. destruct (get_attribute d p "href") as [h|] eqn:Hh.
  - assert (is_Some (attrs_at d p)) as Hp.
    { unfold get_attribute in Hh. destruct (attrs_at d p); [done|discriminate]. }
    destruct (decide (q = p)) as [->|Hqp]; cbn [rewritten_href]; destruct (should_rewrite (Some h)).
    + rewrite get_attribute_set_attribute, decide_True; naive_solver.
    + done.
    + rewrite get_attribute_set_attribute, decide_False; naive_solver.
    + done.
  - by destruct (decide (q = p)) as [->|].
Qed.

Lemma rewrite_link_other p d q k :
  k <> "href" -> get_attribute (rewrite_link ptr p d) q k = get_attribute d q k.
Proof.
  intros Hk. unfold rewrite_link. destruct (get_attribute d p "href"); [|done].
  destruct (should_rewrite _); [|done]. rewrite get_attribute_set_attribute.
  case_decide; naive_solver.
Qed.

Lemma rewrite_link_class p d q u : has_class (rewrite_link ptr p d) q u = has_class d q u.
Proof.
  unfold rewrite_link. destruct (get_attribute d p "href"); [|done].
  destruct (should_rewrite _); [|done]. by apply has_class_set_attribute.
Qed.

Lemma rewrite_link_shape p d : same_shape (rewrite_link ptr p d) d.
Proof.
  unfold rewrite_link. destruct (get_attribute d p "href"); [|done].
  destruct (should_rewrite _); [apply alter_attrs_same_shape|done].
Qed.

Lemma rewrite_link_frame p d : chapter_frame d (rewrite_link ptr p d).
Proof. split; [apply rewrite_link_shape|intros; apply rewrite_link_class]. Qed.

Lemma is_current_rewrite_link i p d :
  is_current loc ptr cur i p (rewrite_link ptr p d) = current_spec d i p.
Proof.
  unfold is_current, current_spec, index_alias, href_prop.
  rewrite rewrite_link_href, decide_True by done. by destruct (rewritten_href _).
Qed.

(** The classes a run of the loop from index [i] adds, on the document
    [d] it starts from. *)
Definition marked (d : node) (i : nat) (links : list path) (u : string) (q : path) : Prop :=
  exists j p, links !! j = Some p /\ current_spec d (i + j) p = true /\
    ((u = "active" /\ q = p /\ is_Some (attrs_at d p)) \/
     (u = "expanded" /\ q ∈ expand_targets d p)).

(** The postcondition of the loop over [links] from index [i]. *)
Definition loop_post (d d' : node) (i : nat) (links : list path) : Prop :=
  same_shape d' d /\
  (forall q, get_attribute d' q "href" =
             if decide (q ∈ links) then rewritten_href (get_attribute d q "href")
             else get_attribute d q "href") /\
  (forall q k, k <> "class" -> k <> "href" -> get_attribute d' q k = get_attribute d q k) /\
  (forall q u, has_class d' q u = true <-> has_class d q u = true \/ marked d i links u q).

Lemma marked_cons d i p ps u q :
  marked d i (p :: ps) u q <-> marked d i [p] u q \/ marked d (S i) ps u q.
Proof.
  unfold marked. split.
  - intros ([|j] & p' & Hj & Hc & Hu); simpl in Hj; [left|right].
    + exists 0%nat, p'. by simplify_eq.
    + exists j, p'. by replace (S i + j)%nat with (i + S j)%nat by lia.
  - intros [(j & p' & Hj & Hc & Hu)|(j & p' & Hj & Hc & Hu)].
    + destruct j as [|j]; [|by simplify_eq/=]. exists 0%nat, p'. by simplify_eq.
    + exists (S j), p'. by replace (i + S j)%nat with (S i + j)%nat by lia.
Qed.

(** The marks of the remaining links do not see what earlier steps did. *)
Lemma marked_frame d d' i links u q :
  chapter_frame d d' -> (forall p, p ∈ links -> get_attribute d' p "href" = get_attribute d p "href") ->
  marked d' i links u q <-> marked d i links u q.
Proof.
  intros HF Hh. unfold marked, current_spec.
  assert (forall p, is_Some (attrs_at d' p) <-> is_Some (attrs_at d p)) as Hs
    by (intros; apply attrs_at_is_Some_shape, HF).
  split; intros (j & p & Hj & Hc & Hu); exists j, p;
    pose proof (list_elem_of_lookup_2 _ _ _ Hj) as Hp;
    rewrite ?Hh, ?(expand_targets_frame d d'), ?Hs in * by done; naive_solver.
Qed.

Lemma href_singleton (d : node) (p q : path) :
  (if decide (q = p) then rewritten_href (get_attribute d p "href") else get_attribute d q "href") =
  (if decide (q ∈ [p]) then rewritten_href (get_attribute d q "href") else get_attribute d q "href").
Proof.
  destruct (decide (q = p)) as [->|Hqp].
  - by rewrite decide_True by set_solver.
  - by rewrite decide_False by set_solver.
Qed.

Lemma link_step_post i p d : loop_post d (link_step loc ptr cur i p d) i [p].
Proof.
  unfold link_step. rewrite is_current_rewrite_link.
  pose proof (rewrite_link_frame p d) as HF.
  destruct (current_spec d i p) eqn:Hc.
  - destruct (mark_active_adds p (rewrite_link ptr p d)) as (E & A & C). split_and!.
    + rewrite E. apply rewrite_link_shape.
    + intros q. rewrite A, rewrite_link_href by done. apply href_singleton.
    + intros q k Hk Hk'. by rewrite A, rewrite_link_other.
    + intros q u. rewrite C, rewrite_link_class, (expand_targets_frame d) by done.
      rewrite (attrs_at_is_Some_shape _ d) by apply HF.
      unfold marked. split.
      * intros [?|?]; [by left|right]. exists 0%nat, p. rewrite Nat.add_0_r. naive_solver.
      * intros [?|(j & p' & Hj & _ & Hu)]; [by left|right].
        destruct j as [|j]; simplify_eq/=; naive_solver.
  - split_and!.
    + apply rewrite_link_shape.
    + intros q. rewrite rewrite_link_href. apply href_singleton.
    + intros q k Hk Hk'. by rewrite rewrite_link_other.
    + intros q u. rewrite rewrite_link_class. unfold marked. split; [by left|].
      intros [?|(j & p' & Hj & Hc' & _)]; [done|].
      destruct j as [|j]; [|by simplify_eq/=]. simplify_eq/=.
      rewrite Nat.add_0_r in Hc'. congruence.
Qed.

(** The loop adds no class but [active] and [expanded]. *)
Lemma loop_post_other_class d d' i links q u :
  loop_post d d' i links -> u <> "active" -> u <> "expanded" -> has_class d' q u = has_class d q u.
Proof.
  intros (_ & _ & _ & C) Ha He. specialize (C q u). unfold marked in C.
  apply Bool.eq_iff_eq_true. rewrite C. split; [|by left].
  intros [?|(j & p & _ & _ & [[? _]|[? _]])]; done.
Qed.

Lemma loop_post_chapter_frame d d' i links : loop_post d d' i links -> chapter_frame d d'.
Proof.
  intros HP. split; [apply HP|]. intros q. by apply (loop_post_other_class _ _ i links).
Qed.

(** The [for] loop of lines 18-41 meets its specification when no link
    is listed twice (which holds of the result of [querySelectorAll]). *)
Theorem link_loop_post d i links :
  NoDup links -> loop_post d (link_loop loc ptr cur i links d) i links.
Proof.
  revert d i. induction links as [|p ps IH]; intros d i Hnd; simpl.
  - split_and!; [done| |done|].
    + intros q. by rewrite decide_False by set_solver.
    + intros q u. unfold marked. split; [by left|]. intros [?|(? & ? & ? & _)]; [done|set_solver].
  - apply NoDup_cons in Hnd as [Hp Hnd].
    pose proof (link_step_post i p d) as S1.
    pose proof (loop_post_chapter_frame _ _ _ _ S1) as F1.
    destruct S1 as (E1 & H1 & O1 & C1).
    destruct (IH (link_step loc ptr cur i p d) (S i) Hnd) as (E2 & H2 & O2 & C2).
    split_and!.
    + by rewrite E2.
    + intros q. rewrite H2, !H1. destruct (decide (q = p)) as [->|Hqp].
      * destruct (decide (p ∈ ps)); [done|]. by rewrite !decide_True by set_solver.
      * destruct (decide (q ∈ ps)), (decide (q ∈ [p])), (decide (q ∈ p :: ps));
          first [done|set_solver].
    + intros q k Hk Hk'. by rewrite O2, O1.
    + intros q u. rewrite C2, C1, (marked_cons d i p ps), (marked_frame d (link_step loc ptr cur i p d));
        [tauto|done|].
      intros p' Hp'. rewrite H1, decide_False; [done|set_solver].
Qed.

(** C12: When no element is active before the loop, the links' resolved
    targets are distinct and the index alias of line 26 is off, the loop
    marks at most one element [active]. *)
Theorem link_loop_one_active d links :
  NoDup links ->
  forallb (fun q => negb (has_class d q "active")) (preorder d) = true ->
  NoDup ((fun p => resolved (rewritten_href (get_attribute d p "href"))) <$> links) ->
  ~ (ptr = "" /\ Js.ends_with cur "/index.html" = true) ->
  forall q1 q2,
    has_class (link_loop loc ptr cur 0 links d) q1 "active" = true ->
    has_class (link_loop loc ptr cur 0 links d) q2 "active" = true -> q1 = q2.
Proof.
  intros Hnd Hnone Hdist Hna.
  destruct (link_loop_post d 0 links Hnd) as (_ & _ & _ & C).
  assert (forall q, has_class (link_loop loc ptr cur 0 links d) q "active" = true ->
            exists j, links !! j = Some q /\ resolved (rewritten_href (get_attribute d q "href")) = cur) as Hact.
  { intros q Hq. apply C in Hq as [Hq|(j & p & Hj & Hc & [(_ & -> & _)|(? & _)])]; [|exists j|done].
    - apply has_class_preorder in Hq as Hin. rewrite forallb_forall in Hnone.
      apply list_elem_of_In, Hnone in Hin. by rewrite Hq in Hin.
    - split; [done|]. unfold current_spec, index_alias in Hc.
      apply orb_true_iff in Hc as [Hc|Hc]; [by apply bool_decide_eq_true in Hc|].
      exfalso. apply Hna. rewrite !andb_true_iff, !bool_decide_eq_true in Hc. naive_solver. }
  intros q1 q2 (j1 & Hj1 & Hr1)%Hact (j2 & Hj2 & Hr2)%Hact.
  assert (j1 = j2) as ->; [|congruence].
  eapply (NoDup_lookup _ _ _ cur Hdist);
    [rewrite list_lookup_fmap, Hj1|rewrite list_lookup_fmap, Hj2]; simpl; by f_equal.
Qed.

(** An entry of [marked] puts its class on the document after the loop. *)
Lemma loop_marks d links j p u q :
  NoDup links -> links !! j = Some p -> current_spec d j p = true ->
  (u = "active" /\ q = p /\ is_Some (attrs_at d p)) \/ (u = "expanded" /\ q ∈ expand_targets d p) ->
  has_class (link_loop loc ptr cur 0 links d) q u = true.
Proof.
  intros Hnd Hj Hc Hu. destruct (link_loop_post d 0 links Hnd) as (_ & _ & _ & C).
  apply C. right. by exists j, p.
Qed.

(** An element that has [active] after the loop is a link of the list
    that line 26 selects. *)
Lemma loop_active_selected d links q :
  NoDup links -> forallb (fun q => negb (has_class d q "active")) (preorder d) = true ->
  has_class (link_loop loc ptr cur 0 links d) q "active" = true ->
  exists j, links !! j = Some q /\ current_spec d j q = true.
Proof.
  intros Hnd Hnone Hq. destruct (link_loop_post d 0 links Hnd) as (_ & _ & _ & C).
  apply C in Hq as [Hq|(j & p & Hj & Hc & [(_ & -> & _)|(? & _)])]; [|by exists j|done].
  apply has_class_preorder in Hq as Hin. rewrite forallb_forall in Hnone.
  apply list_elem_of_In, Hnone in Hin. by rewrite Hq in Hin.
Qed.

(** C3: The link whose resolved [href] is the current page gets [active]
    (line 27), its parent [chapter-item] gets [expanded] (lines 28-31), and
    so does the previous [chapter-item] sibling of each of its [<li>]
    ancestors (lines 32-39): every expansion target of the link. *)
Theorem link_loop_marks_current d links j p :
  NoDup links -> links !! j = Some p -> is_Some (attrs_at d p) ->
  resolved (rewritten_href (get_attribute d p "href")) = cur ->
  has_class (link_loop loc ptr cur 0 links d) p "active" = true /\
  forall r, r ∈ expand_targets d p -> has_class (link_loop loc ptr cur 0 links d) r "expanded" = true.
Proof.
  intros Hnd Hj Hp Hr.
  assert (current_spec d j p = true) as Hc by (unfold current_spec; by rewrite bool_decide_eq_true_2).
  split; [|intros r Hr']; apply (loop_marks d links j p); auto.
Qed.

(** C2: The index alias of line 26: on a page whose [path_to_root] is
    empty and whose current page ends in ["/index.html"], the first link
    is [active] whatever its target, and so is every other link whose
    target is the page: the page then has two active links or more. *)
Theorem link_loop_index_alias d p0 ps :
  NoDup (p0 :: ps) -> is_Some (attrs_at d p0) -> ptr = "" -> Js.ends_with cur "/index.html" = true ->
  has_class (link_loop loc ptr cur 0 (p0 :: ps) d) p0 "active" = true /\
  forall q, q ∈ ps -> is_Some (attrs_at d q) -> resolved (rewritten_href (get_attribute d q "href")) = cur ->
    has_class (link_loop loc ptr cur 0 (p0 :: ps) d) q "active" = true.
Proof.
  intros Hnd Hp0 Hptr Hidx. split.
  - apply (loop_marks d _ 0 p0); [done|done| |by left].
    unfold current_spec. apply orb_true_iff. right.
    unfold index_alias. by rewrite Hptr, Hidx, !bool_decide_eq_true_2.
  - intros q Hq Hqa Hr. apply list_elem_of_lookup_1 in Hq as [j Hj].
    apply (loop_marks d _ (S j) q); [done|done| |by left].
    unfold current_spec. by rewrite bool_decide_eq_true_2.
Qed.

End Loop.

End LinkLoop.
