(* ===== verification/Callback.v ===== *)
(** * Properties of the callback and of its two listeners

    - [current_page] (lines 13-16): the fragment is dropped, and a URL
      ending in ["/"] names the same page as its ["index.html"];
    - the sessionStorage key ["sidebar-scroll"] is gone after every run of
      [connected_callback] (line 49), and no other key is touched;
    - a click on an [<a>] below the sidebar stores the sidebar's offset
      (lines 43-47), and the next run of the callback restores exactly that
      offset when it is within the new page's scroll range (lines 48-52);
    - a stored value that is not a finite number sends the sidebar to the
      top (line 52 and the [scrollTop] setter);
    - on a URL with a query, no link is active (line 13 keeps the query);
    - [toggleSection] (lines 62-64) flips [expanded] on the toggle's parent
      and on nothing else. *)

From S2P Require Import Prelude JsString ClassList Dom Browser Markup Sidebar LinkLoop.

Module Callback.
Import Dom Browser Sidebar.

Definition no_hash (s : string) : bool := forall_chars (fun c => bool_decide (c <> "#"%char)) s.

(** ** The current page *)

Lemma current_page_no_hash_id u : no_hash u = true ->
  current_page u = if Js.ends_with u "/" then u +:+ "index.html" else u.
Proof. intros Hu. unfold current_page. by rewrite Js.split_first_id. Qed.

(** C15: The page a URL ending in ["/"] names is that directory's
    ["index.html"]. *)
Theorem current_page_trailing_slash u :
  no_hash u = true -> current_page (u +:+ "/") = current_page (u +:+ "/index.html").
Proof.
  intros Hu. rewrite !current_page_no_hash_id
    by (unfold no_hash in *; by rewrite forall_chars_app, Hu).
  rewrite Js.ends_with_last, bool_decide_eq_true_2 by done.
  replace (u +:+ "/index.html") with ((u +:+ "/index.htm") +:+ "l") by by rewrite <- str_app_assoc.
  rewrite Js.ends_with_last, bool_decide_eq_false_2 by done. by rewrite <- !str_app_assoc.
Qed.

(** C16: The fragment of the URL does not change the current page. *)
Theorem current_page_fragment u f :
  no_hash u = true -> current_page (u +:+ String "#" f) = current_page u.
Proof.
  intros Hu. unfold current_page. rewrite Js.split_first_app_sep by done.
  by rewrite (Js.split_first_id "#" u).
Qed.

(** No ["?"] in a string. *)
Definition no_query (s : string) : bool := forall_chars (fun c => bool_decide (c <> "?"%char)) s.

(** Line 13 keeps the query of the URL in the current page. *)
Lemma current_page_query u q : no_hash u = true -> no_query (current_page (u +:+ String "?" q)) = false.
Proof.
  intros Hu. unfold current_page, no_query. rewrite Js.split_first_app_no_sep by done.
  cbn [Js.split_first]. rewrite decide_False by discriminate.
  destruct (Js.ends_with _ _); rewrite ?forall_chars_app; cbn [forall_chars];
    rewrite bool_decide_eq_false_2 by tauto; by rewrite ?andb_false_r.
Qed.

(** ** The sessionStorage key lives until the next render *)

Section Scroll.
Context `{UrlResolver} `{Layout}.

(** ** The rendered document *)

(** C9: Line 13 strips the fragment of the URL but not its query: on a
    page opened with [?query] (as mdBook's search results are, with
    [?highlight=...]), when no link's resolved [href] holds a ["?"], the
    loop marks no element [active]. *)
Theorem query_page_no_active d links u q ptr r :
  NoDup links -> no_hash u = true ->
  forallb (fun p => negb (has_class d p "active")) (preorder d) = true ->
  forallb (fun p => no_query (LinkLoop.resolved (u +:+ String "?" q)
                               (LinkLoop.rewritten_href ptr (get_attribute d p "href")))) links = true ->
  ~ (ptr = "" /\ Js.ends_with (current_page (u +:+ String "?" q)) "/index.html" = true) ->
  has_class (link_loop (u +:+ String "?" q) ptr (current_page (u +:+ String "?" q)) 0 links d) r "active"
  = false.
Proof.
  intros Hnd Hu Hnone Hlinks Hna. destruct (has_class _ r _) eqn:E; [|done]. exfalso.
  apply LinkLoop.loop_active_selected in E as (j & Hj & Hc); [|done|done].
  unfold LinkLoop.current_spec in Hc. apply orb_true_iff in Hc as [Hc|Hc].
  - apply bool_decide_eq_true in Hc. rewrite forallb_forall in Hlinks.
    specialize (Hlinks r (proj1 (list_elem_of_In _ _) (list_elem_of_lookup_2 _ _ _ Hj))).
    rewrite Hc, current_page_query in Hlinks by done. discriminate.
  - apply Hna. unfold LinkLoop.index_alias in Hc. rewrite !andb_true_iff, !bool_decide_eq_true in Hc.
    naive_solver.
Qed.

Lemma toc_links_nodup d sp : NoDup (toc_links d sp).
Proof. apply NoDup_filter, descendants_nodup. Qed.

(** C1: The document lines 11-41 render from any page meets the loop's
    specification: starting from the document with the table of contents
    inserted, it has the same shape; every link's [href] is the rewritten
    one (prefixed with [path_to_root] when relative); no other attribute
    changes; and an element has a class iff it had it before, or the class
    is [active] on a link whose resolved [href] is the current page (or the
    first link, by the index alias), or [expanded] on an expansion target
    of such a link. *)
Theorem rendered_doc_post pg :
  let d1 := set_children Markup.toc_nodes (sidebar pg) (doc pg) in
  LinkLoop.loop_post (location pg) (path_to_root pg) (current_page (location pg))
    d1 (rendered_doc pg) 0 (toc_links d1 (sidebar pg)).
Proof. apply LinkLoop.link_loop_post, toc_links_nodup. Qed.

Lemma sidebar_toggles_frame d d' :
  same_shape d' d -> (forall q, get_attribute d' q "id" = get_attribute d q "id") ->
  (forall q, has_class d' q "toggle" = has_class d q "toggle") ->
  sidebar_toggles d' = sidebar_toggles d.
Proof.
  intros E Hid Ht. unfold sidebar_toggles, query_document. rewrite (preorder_proper d' d E).
  apply list_filter_iff. intros q. unfold has_ancestor, has_id, is_tag.
  rewrite (tag_at_proper d' d E q q eq_refl), Ht.
  rewrite (existsb_ext _ (fun r => bool_decide (get_attribute d r "id" = Some "sidebar"))); [done|].
  intros r. by rewrite Hid.
Qed.


Lemma restore_scroll_storage pg st :
  (restore_scroll pg st).2 = delete scroll_key st.
Proof. unfold restore_scroll. by destruct (truthy _). Qed.

Lemma connected_callback_storage pg st :
  (connected_callback pg st).2 = delete scroll_key st.
Proof.
  unfold connected_callback.
  pose proof (restore_scroll_storage (with_listeners (with_doc pg (rendered_doc pg))
    (listeners pg ++ [(sidebar pg, SaveScroll)])) st) as Hs.
  destruct (restore_scroll _ st) as [pg2 st2]. done.
Qed.

(** C6: After a render the key is absent; every other key is as it was. *)
Theorem connected_callback_clears_key pg st k :
  (connected_callback pg st).2 !! k = if decide (k = scroll_key) then None else st !! k.
Proof.
  rewrite connected_callback_storage. case_decide as Hk.
  - subst. apply lookup_delete_eq.
  - by apply lookup_delete_ne.
Qed.

(** ** Saving and restoring the offset *)

Lemma restore_scroll_page pg st :
  doc (restore_scroll pg st).1 = doc pg /\ listeners (restore_scroll pg st).1 = listeners pg /\
  sidebar (restore_scroll pg st).1 = sidebar pg.
Proof.
  unfold restore_scroll. destruct (truthy _); [done|].
  unfold scroll_to_active. by destruct (sidebar_active _).
Qed.

(** The callback renders the document and adds the scroll listener, then
    one [toggleSection] per [#sidebar a.toggle] of the rendered document. *)
Theorem connected_callback_page pg st :
  doc (connected_callback pg st).1 = rendered_doc pg /\
  listeners (connected_callback pg st).1 =
    listeners pg ++ [(sidebar pg, SaveScroll)] ++
    ((fun q => (q, ToggleSection)) <$> sidebar_toggles (rendered_doc pg)).
Proof.
  unfold connected_callback.
  pose proof (restore_scroll_page (with_listeners (with_doc pg (rendered_doc pg))
    (listeners pg ++ [(sidebar pg, SaveScroll)])) st) as (Hd & Hl & _).
  destruct (restore_scroll _ st) as [pg2 st2]. simpl in *. rewrite Hd, Hl.
  split; [done|]. by rewrite <- app_assoc.
Qed.

Lemma restore_scroll_nonneg pg st :
  (0 <= scroll_top pg)%Z -> (0 <= scroll_top (restore_scroll pg st).1)%Z.
Proof.
  intros Hs. unfold restore_scroll. destruct (truthy _); [apply clamp_scroll_nonneg|].
  unfold scroll_to_active. destruct (sidebar_active _); [apply clamp_scroll_nonneg|done].
Qed.

(** The offset after the callback is the one lines 48-59 set. *)
Lemma connected_callback_scroll_top pg st :
  scroll_top (connected_callback pg st).1 =
  scroll_top (restore_scroll (with_listeners (with_doc pg (rendered_doc pg))
                                (listeners pg ++ [(sidebar pg, SaveScroll)])) st).1.
Proof. unfold connected_callback. by destruct (restore_scroll _ st). Qed.

(** The offset stays non-negative through a render. *)
Lemma connected_callback_scroll_nonneg pg st :
  (0 <= scroll_top pg)%Z -> (0 <= scroll_top (connected_callback pg st).1)%Z.
Proof. intros Hs. rewrite connected_callback_scroll_top. by apply restore_scroll_nonneg. Qed.

(** C17: A stored value that is not a finite number (other code wrote
    ["abc"], ["1e999"] or ["Infinity"] under the key) is still truthy, so
    line 52 assigns it: [ToNumber] gives [NaN] or an infinity, which the
    [scrollTop] setter turns into 0.  The sidebar goes to the top instead
    of scrolling the active entry into view. *)
Theorem connected_callback_not_a_number pg st v :
  st !! scroll_key = Some v -> v <> "" -> Js.finite (Js.string_to_number v) = None ->
  scroll_top (connected_callback pg st).1 = 0%Z.
Proof.
  intros Hst Hv Hnan. rewrite connected_callback_scroll_top. unfold restore_scroll.
  rewrite Hst. cbn [truthy]. rewrite bool_decide_eq_true_2 by done.
  transitivity (clamp_scroll (scroll_max (rendered_doc pg) (sidebar pg))
                  (scroll_request (Js.string_to_number v))); [reflexivity|].
  unfold scroll_request. by rewrite Hnan.
Qed.

(** Without a truthy stored value, the render scrolls the first
    [#sidebar .active] of the rendered document into view (lines 55-58). *)
Lemma connected_callback_unsaved pg st :
  truthy (st !! scroll_key) = false ->
  scroll_top (connected_callback pg st).1 =
  match sidebar_active (rendered_doc pg) with
  | Some a => clamp_scroll (scroll_max (rendered_doc pg) (sidebar pg))
                (Some (center_scroll (rendered_doc pg) (sidebar pg) a))
  | None => scroll_top pg
  end.
Proof.
  intros Hs. rewrite connected_callback_scroll_top. unfold restore_scroll. rewrite Hs.
  unfold scroll_to_active. cbn [doc sidebar with_listeners with_doc]. by destruct (sidebar_active _).
Qed.

(** [restoreScroll] applied to a page whose stored string asks for a
    position in range. *)
Lemma restore_scroll_value pg st v z :
  st !! scroll_key = Some v -> v <> "" -> scroll_request (Js.string_to_number v) = Some z ->
  (0 <= z <= scroll_max (doc pg) (sidebar pg))%Z ->
  scroll_top (restore_scroll pg st).1 = z.
Proof.
  intros Hst Hv Hn Hz. unfold restore_scroll. rewrite Hst. cbn [truthy].
  rewrite bool_decide_eq_true_2 by done.
  transitivity (clamp_scroll (scroll_max (doc pg) (sidebar pg))
                  (scroll_request (Js.string_to_number v))); [reflexivity|].
  rewrite Hn. by apply clamp_scroll_in_range.
Qed.

(** The decimal string of an offset in a scroll range asks for that
    offset. *)
Lemma scroll_request_offset d q z :
  (0 <= z <= scroll_max d q)%Z -> scroll_request (Js.string_to_number (Js.number_to_string z)) = Some z.
Proof.
  intros Hz. pose proof (scroll_max_safe d q). pose proof Js.safe_below_overflow.
  unfold scroll_request. rewrite Js.string_to_number_number_to_string by lia.
  cbn. by rewrite scroll_snap_Z.
Qed.

Lemma restore_scroll_offset pg st z :
  st !! scroll_key = Some (Js.number_to_string z) ->
  (0 <= z <= scroll_max (doc pg) (sidebar pg))%Z ->
  scroll_top (restore_scroll pg st).1 = z.
Proof.
  intros Hst Hz. apply (restore_scroll_value pg st _ z Hst); [|by eapply scroll_request_offset|done].
  apply Js.number_to_string_nonempty.
Qed.

Lemma connected_callback_offset pg st z :
  st !! scroll_key = Some (Js.number_to_string z) ->
  (0 <= z <= scroll_max (rendered_doc pg) (sidebar pg))%Z ->
  scroll_top (connected_callback pg st).1 = z.
Proof.
  intros Hst Hz. rewrite connected_callback_scroll_top. by apply restore_scroll_offset.
Qed.

(** C7: The next render restores a stored offset that is in range. *)
Theorem connected_callback_restores pg st z :
  st !! scroll_key = Some (Js.number_to_string z) ->
  (0 <= z <= scroll_max (rendered_doc pg) (sidebar pg))%Z ->
  scroll_top (connected_callback pg st).1 = z.
Proof. apply connected_callback_offset. Qed.

(** What a run of the listeners keeps: the offset and the shape. *)
Definition dispatch_inv (pg : page) (acc : page * storage) : Prop :=
  scroll_top acc.1 = scroll_top pg /\ same_shape (doc acc.1) (doc pg).

Lemma run_listener_inv pg t acc l : dispatch_inv pg acc -> dispatch_inv pg (run_listener t acc l).
Proof.
  destruct acc as [pg1 st1], l as [ct []]; intros [Hs Hd];
    unfold run_listener, save_scroll, toggle_section; simpl.
  - by case_bool_decide.
  - destruct (parent_element ct); [|done]. split; [done|]. simpl.
    unfold toggle_class. by rewrite alter_attrs_same_shape.
Qed.

Lemma run_listener_saved pg t acc l :
  dispatch_inv pg acc -> acc.2 !! scroll_key = Some (Js.number_to_string (scroll_top pg)) ->
  (run_listener t acc l).2 !! scroll_key = Some (Js.number_to_string (scroll_top pg)).
Proof.
  destruct acc as [pg1 st1], l as [ct []]; intros [Hs Hd] Hk;
    unfold run_listener, save_scroll; simpl in *; [|done].
  case_bool_decide; simpl; [|done]. by rewrite lookup_insert_eq, Hs.
Qed.

Lemma dispatch_node_inv pg t n acc :
  dispatch_inv pg acc ->
  dispatch_inv pg (fold_left (fun acc l => if bool_decide (l.1 = n) then run_listener t acc l else acc)
                     (listeners pg) acc).
Proof.
  intros Ha. apply fold_left_inv; [done|]. intros a l _ Hinv.
  case_bool_decide; [by apply run_listener_inv|done].
Qed.

(** A click on an [<a>] whose path passes the sidebar's listener stores
    the sidebar's offset under the key. *)
Theorem dispatch_click_saves t pg st n :
  tag_name_at (doc pg) t = Some "A" ->
  n ∈ t :: ancestors t -> (n, SaveScroll) ∈ listeners pg ->
  (dispatch_click t pg st).2 !! scroll_key = Some (Js.number_to_string (scroll_top pg)).
Proof.
  intros Ht Hn Hl. unfold dispatch_click.
  set (Q := fun acc : page * storage =>
              acc.2 !! scroll_key = Some (Js.number_to_string (scroll_top pg))).
  apply (fold_left_sticky _ (dispatch_inv pg) Q _ _ n); [done|by split| | |].
  - intros a b Ha. by apply dispatch_node_inv.
  - intros a Ha. apply (fold_left_sticky _ (dispatch_inv pg) Q _ _ (n, SaveScroll)); [done|done| | |].
    + intros a' l Ha'. case_bool_decide; [by apply run_listener_inv|done].
    + intros [pg1 st1] [Hs Hd]. simpl in Hs, Hd. unfold Q. simpl. rewrite bool_decide_eq_true_2 by done.
      unfold run_listener, save_scroll. simpl.
      rewrite bool_decide_eq_true_2; [simpl; by rewrite lookup_insert_eq, Hs|].
      by rewrite (tag_name_at_proper _ _ Hd t t eq_refl).
    + intros a' l Ha' Hq. case_bool_decide; [by apply run_listener_saved|done].
  - intros a b Ha Hq. apply (fold_left_inv _ (fun acc => dispatch_inv pg acc /\ Q acc)); [done|].
    intros a' l _ [Ha' Hq']. case_bool_decide; [|done].
    split; [by apply run_listener_inv|by apply run_listener_saved].
Qed.

(** What a click does to the storage and the offset: the offset stays,
    the key is untouched or holds the offset, other keys are untouched. *)
Theorem dispatch_click_storage t pg st :
  let r := dispatch_click t pg st in
  scroll_top r.1 = scroll_top pg /\ same_shape (doc r.1) (doc pg) /\
  (r.2 !! scroll_key = st !! scroll_key \/
   r.2 !! scroll_key = Some (Js.number_to_string (scroll_top pg))) /\
  (forall k, k <> scroll_key -> r.2 !! k = st !! k).
Proof.
  set (I := fun acc : page * storage => dispatch_inv pg acc /\
          (acc.2 !! scroll_key = st !! scroll_key \/
           acc.2 !! scroll_key = Some (Js.number_to_string (scroll_top pg))) /\
          (forall k, k <> scroll_key -> acc.2 !! k = st !! k)).
  assert (forall acc l, I acc -> I (run_listener t acc l)) as Hstep.
  { intros [pg1 st1] [ct []] (Hinv & Hk & Ho); (split; [by apply run_listener_inv|]);
      unfold run_listener, save_scroll; simpl in *; [|done].
    destruct Hinv as [Hs _]. simpl in Hs. case_bool_decide; simpl; [|done]. split.
    - right. by rewrite lookup_insert_eq, Hs.
    - intros k Hk'. by rewrite lookup_insert_ne, Ho by done. }
  enough (I (dispatch_click t pg st)) as (Hinv & ? & ?) by (destruct Hinv; done).
  unfold dispatch_click. apply (fold_left_inv _ I); [split_and!; [by split|by left|done]|].
  intros acc n _ Hacc. apply (fold_left_inv _ I); [done|]. intros acc' l _ Hacc'.
  case_bool_decide; [by apply Hstep|done].
Qed.

(** C4: Navigating by a link of the sidebar keeps the sidebar's offset: the
    click stores it, the next page's render restores it, provided it is in
    the new page's scroll range. *)
Theorem scroll_survives_navigation t pg st pg' :
  tag_name_at (doc pg) t = Some "A" ->
  sidebar pg ∈ t :: ancestors t -> (sidebar pg, SaveScroll) ∈ listeners pg ->
  (0 <= scroll_top pg <= scroll_max (rendered_doc pg') (sidebar pg'))%Z ->
  scroll_top (connected_callback pg' (dispatch_click t pg st).2).1 = scroll_top pg.
Proof. intros Ht Hs Hl Hz. apply connected_callback_offset; [by eapply dispatch_click_saves|done]. Qed.

(** ** [toggleSection] *)

(** C14: [toggleSection] flips [expanded] on the parent of the toggle, and
    changes no other class of any element. *)
Theorem toggle_section_flips pg q r :
  parent_element q = Some r -> is_Some (attrs_at (doc pg) r) ->
  forall r' u,
    has_class (doc (toggle_section q pg)) r' u =
    if decide (r' = r /\ u = "expanded") then negb (has_class (doc pg) r "expanded")
    else has_class (doc pg) r' u.
Proof.
  intros Hq Hr r' u. unfold toggle_section. rewrite Hq. simpl.
  rewrite has_class_toggle_class by apply LinkLoop.valid_token_expanded.
  repeat case_decide; naive_solver.
Qed.

End Scroll.
End Callback.
