(* ===== verification/Registry.v ===== *)
(** * Running the script: the class of lines 6-10 and [define] of line 70

    [src/toc.js] is a classic script.  Running it in a window:
    - the global declaration instantiation of ECMA-262 (16.1.7) checks
      the script's lexical declaration [class MDBookSidebarScrollbox]
      (line 6) against the window's global lexical names first, and throws
      a [SyntaxError] when the name is declared already: nothing of the
      script runs then;
    - line 6 evaluates the class: a new constructor object, bound to the
      global lexical name;
    - line 70 calls [customElements.define].  The HTML standard's [define]
      throws a [SyntaxError] [DOMException] when the name is not a valid
      custom element name, and a [NotSupportedError] when the name, or the
      constructor, is in the registry already; otherwise it adds the
      definition and upgrades every element of the document with that
      local name, in document order: the constructor runs (lines 7-9:
      [super()] returns the element itself, and the class has no state of
      its own), then, the element being connected, [connectedCallback]
      (line 10) runs with [this] the element.  The candidates are
      collected before any reaction runs.  An exception of [define] ends
      the script; the class binding stays.
    Constructors are compared by identity: each evaluation of the class
    is a fresh object, which the window numbers.  Not modelled: name
    characters outside ASCII (which the standard allows), and the other
    global names a script declaration can clash with ([var] and function
    declarations, non-configurable properties of the global object). *)

From S2P Require Import Prelude JsString ClassList Dom Browser Markup Sidebar.

Module Registry.
Import Dom Browser Sidebar.

Inductive dom_exception := SyntaxError | NotSupportedError.

(** What running the script throws. *)
Inductive script_error :=
| Redeclaration                  (* the [SyntaxError] of line 6 *)
| DefineError (e : dom_exception).

(** A constructor object, by identity. *)
Definition ctor : Type := nat.

(** The definitions of a window, in order: element name and constructor. *)
Definition registry : Type := list (string * ctor).

Record window := {
  definitions : registry;
  lexical_names : list string;
  next_object : ctor
}.

(** A window that has not run the script: a page load opens one. *)
Definition empty_window : window :=
  {| definitions := []; lexical_names := []; next_object := 0 |}.

Definition element_name : string := "mdbook-sidebar-scrollbox".
Definition element_class : string := "MDBookSidebarScrollbox".

(** [PCENChar] restricted to ASCII: ["-"], ["."], digits, ["_"] and lower
    case letters. *)
Definition pcen_char (c : ascii) : bool :=
  let n := nat_of_ascii c in
  bool_decide (n = 45 \/ n = 46 \/ (48 <= n <= 57) \/ n = 95 \/ (97 <= n <= 122))%nat.

Definition reserved_names : list string :=
  ["annotation-xml"; "color-profile"; "font-face"; "font-face-src"; "font-face-uri";
   "font-face-format"; "font-face-name"; "missing-glyph"].

(** A lower case ASCII letter, then [PCENChar]s with at least one ["-"],
    and not a reserved name. *)
Definition valid_custom_element_name (n : string) : bool :=
  match n with
  | EmptyString => false
  | String c r =>
      bool_decide (97 <= nat_of_ascii c <= 122)%nat && forall_chars pcen_char r &&
      negb (forall_chars (fun c => bool_decide (c <> "-"%char)) r) &&
      negb (bool_decide (n ∈ reserved_names))
  end.

(** [customElements.define(name, c)] on the registry. *)
Definition define (reg : registry) (name : string) (c : ctor) : dom_exception + registry :=
  if negb (valid_custom_element_name name) then inl SyntaxError
  else if decide (name ∈ fst <$> reg) then inl NotSupportedError
  else if decide (c ∈ snd <$> reg) then inl NotSupportedError
  else inr (reg ++ [(name, c)]).

Definition with_sidebar (pg : page) (q : path) : page :=
  {| doc := doc pg; location := location pg; path_to_root := path_to_root pg; sidebar := q;
     scroll_top := scroll_top pg; listeners := listeners pg |}.

Section Load.
Context `{UrlResolver} `{Layout}.

(** The upgrade of the element at [q]: the constructor of lines 7-9
    leaves the element as it is, then [connectedCallback] runs on it. *)
Definition upgrade (r : page * storage) (q : path) : page * storage :=
  connected_callback (with_sidebar r.1 q) r.2.

(** The elements with the defined name, in document order. *)
Definition upgrade_candidates (d : node) (name : string) : list path :=
  query_document d (is_tag d name).

(** Running the script in the window [w] on the page [pg]: the window
    after it, and the exception thrown or the page and storage after the
    upgrades. *)
Definition script_load (w : window) (pg : page) (st : storage)
    : window * (script_error + (page * storage)) :=
  if decide (element_class ∈ lexical_names w) then (w, inl Redeclaration)
  else
    let c := next_object w in
    let w1 := {| definitions := definitions w; lexical_names := element_class :: lexical_names w;
                 next_object := S c |} in
    match define (definitions w1) element_name c with
    | inl e => (w1, inl (DefineError e))
    | inr reg =>
        ({| definitions := reg; lexical_names := lexical_names w1; next_object := next_object w1 |},
         inr (fold_left upgrade (upgrade_candidates (doc pg) element_name) (pg, st)))
    end.

(** The window after a first run. *)
Definition loaded_window : window :=
  {| definitions := [(element_name, 0%nat)]; lexical_names := [element_class]; next_object := 1%nat |}.

Lemma with_sidebar_id pg : with_sidebar pg (sidebar pg) = pg.
Proof. by destruct pg. Qed.

(** In a fresh window, on a page whose only element with the name is the
    sidebar, the script defines the element and runs [connectedCallback]
    once, on the sidebar. *)
Lemma script_load_fresh pg st :
  upgrade_candidates (doc pg) element_name = [sidebar pg] ->
  script_load empty_window pg st = (loaded_window, inr (connected_callback pg st)).
Proof.
  intros Hq. unfold script_load. cbn [lexical_names empty_window definitions next_object].
  rewrite decide_False by set_solver.
  assert (define [] element_name 0 = inr [(element_name, 0%nat)]) as -> by reflexivity.
  rewrite Hq. cbn [fold_left]. unfold upgrade. by rewrite with_sidebar_id.
Qed.

(** C18: The script cannot run twice in a window: a second run throws the
    [SyntaxError] of the redeclaration of line 6 before any of its code
    runs, whether the first run's [define] succeeded or threw, and leaves
    the window as the first run left it. *)
Theorem script_load_twice w pg st w' r pg' st' :
  script_load w pg st = (w', r) -> script_load w' pg' st' = (w', inl Redeclaration).
Proof.
  unfold script_load at 1. destruct (decide (element_class ∈ lexical_names w)) as [Hin|Hnin].
  - intros [= <- _]. unfold script_load. by rewrite decide_True.
  - destruct (define _ _ _); intros [= <- _]; unfold script_load; rewrite decide_True; set_solver.
Qed.

End Load.
End Registry.
