(* ===== verification/Session.v ===== *)
(** * A browsing session: page loads, clicks, scrolls, other scripts

    The browser state the script lives in, as a step relation.  A session
    holds the loaded page, if any, and the tab's sessionStorage.  The steps:
    - [step_load]: a navigation loads a new page in a fresh window, whose
      only [mdbook-sidebar-scrollbox] is the sidebar; the script runs:
      line 70 defines the element in the empty registry and upgrades it,
      so [connectedCallback] runs (src/toc.js, lines 10-68, [Registry]);
    - [step_click]: the user clicks an element of the page; the click is
      dispatched to the listeners (lines 43-47 and 62-64);
    - [step_scroll]: the user scrolls the sidebar; the offset is clamped;
    - [step_other]: another script of the page writes another key.
    Each step carries an [event]: what the contract on the key sees of it.
    The invariant: once a page is loaded, the sidebar's offset is
    non-negative and the ["sidebar-scroll"] key is absent or holds the
    decimal string of a non-negative offset, whatever the session did
    before the first load.  The contract [key_step] is an abstract state
    machine over the offset the next render restores; [lstep_refines]
    shows that every step of the session is one of its steps. *)

From S2P Require Import Prelude JsString ClassList Dom Browser Markup Sidebar LinkLoop Callback Registry.

Module Session.
Import Dom Browser Sidebar.

Record session := {
  current : option page;
  store : storage
}.

(** What a step is, as the contract on the key sees it. *)
Inductive event :=
| ELoad
| EClick (z : Z)   (* a click while the sidebar's offset is [z] *)
| EScroll
| EOther.

(** The contract of the script on the key: the offset the next render
    restores, if any.  A load consumes it; a click leaves it or records the
    offset at the time of the click; scrolls and other scripts' writes do
    not touch it. *)
Inductive key_step : event -> option Z -> option Z -> Prop :=
| key_load p : key_step ELoad p None
| key_click_keep z p : key_step (EClick z) p p
| key_click_save z p : key_step (EClick z) p (Some z)
| key_scroll p : key_step EScroll p p
| key_other p : key_step EOther p p.

(** The storage holds the contract's offset, as its decimal string. *)
Definition key_rel (s : session) (p : option Z) : Prop :=
  store s !! scroll_key = Js.number_to_string <$> p.

Section Steps.
Context `{UrlResolver} `{Layout}.

(** A page as the browser hands it over before the callback: no listener
    yet, and the sidebar at the top. *)
Definition new_page (pg : page) : Prop := listeners pg = [] /\ scroll_top pg = 0%Z.

Definition after (r : page * storage) : session := {| current := Some r.1; store := r.2 |}.

Inductive lstep : event -> session -> session -> Prop :=
| step_load s pg w r :
    new_page pg -> Registry.upgrade_candidates (doc pg) Registry.element_name = [sidebar pg] ->
    Registry.script_load Registry.empty_window pg (store s) = (w, inr r) -> lstep ELoad s (after r)
| step_click s pg t :
    current s = Some pg -> lstep (EClick (scroll_top pg)) s (after (dispatch_click t pg (store s)))
| step_scroll s pg z :
    current s = Some pg ->
    lstep EScroll s
      {| current := Some (with_scroll pg (clamp_scroll (scroll_max (doc pg) (sidebar pg)) (Some z)));
         store := store s |}
| step_other s k v :
    k <> scroll_key -> lstep EOther s {| current := current s; store := <[k := v]> (store s) |}.

Definition step (s s' : session) : Prop := exists e, lstep e s s'.

Notation "s -[ e ]-> s'" := (lstep e s s') (at level 70, e at level 200, no associativity) : toc_scope.

Definition initial (s : session) : Prop := current s = None.

Definition reachable (s : session) : Prop := exists s0, initial s0 /\ rtc step s0 s.

(** The key holds nothing the script did not write. *)
Definition key_ok (st : storage) : Prop :=
  st !! scroll_key = None \/
  exists z, (0 <= z)%Z /\ st !! scroll_key = Some (Js.number_to_string z).

Definition session_inv (s : session) : Prop :=
  match current s with
  | None => True
  | Some pg => (0 <= scroll_top pg)%Z /\ key_ok (store s)
  end.

(** What a load runs: [connectedCallback] on the new page. *)
Lemma load_runs_callback pg st w r :
  Registry.upgrade_candidates (doc pg) Registry.element_name = [sidebar pg] ->
  Registry.script_load Registry.empty_window pg st = (w, inr r) -> r = connected_callback pg st.
Proof. intros Hq Hl. rewrite Registry.script_load_fresh in Hl by done. congruence. Qed.

Lemma session_inv_step s s' : step s s' -> session_inv s -> session_inv s'.
Proof.
  intros [e Hstep] Hinv. destruct Hstep as [s pg w r [_ Hz] Hq Hl|s pg t Hc|s pg z Hc|s k v Hk];
    unfold session_inv; cbn [after current store].
  - rewrite (load_runs_callback pg (store s) w r Hq Hl).
    split; [apply Callback.connected_callback_scroll_nonneg; lia|]. left.
    rewrite Callback.connected_callback_storage. apply lookup_delete_eq.
  - unfold session_inv in Hinv. rewrite Hc in Hinv. destruct Hinv as [Hs Hkey].
    destruct (Callback.dispatch_click_storage t pg (store s)) as (Hsc & _ & [Hk|Hk] & _).
    + split; [lia|]. unfold key_ok. by rewrite Hk.
    + split; [lia|]. right. exists (scroll_top pg). split; [done|]. by rewrite Hk.
  - unfold session_inv in Hinv. rewrite Hc in Hinv. destruct Hinv as [_ Hkey].
    split; [apply clamp_scroll_nonneg|done].
  - unfold session_inv in *. destruct (current s); [|done]. destruct Hinv as [Hs Hkey].
    split; [done|]. unfold key_ok in *. by rewrite lookup_insert_ne by congruence.
Qed.

(** C5: In every reachable state with a loaded page, the offset is
    non-negative and the key is absent or holds a non-negative offset. *)
Theorem reachable_session_inv s : reachable s -> session_inv s.
Proof.
  intros (s0 & Hinit & Hrtc).
  assert (session_inv s0) as Hs0 by (unfold session_inv; by rewrite Hinit).
  clear Hinit. induction Hrtc as [s0|s0 s1 s2 Hstep _ IH]; [done|].
  by apply IH, (session_inv_step s0 s1 Hstep).
Qed.

(** C10: Every step of the session is a step of the contract on the key. *)
Theorem lstep_refines e s s' p :
  s -[ e ]-> s' -> key_rel s p -> exists p', key_step e p p' /\ key_rel s' p'.
Proof.
  intros Hstep Hr. destruct Hstep as [s pg w r _ Hq Hl|s pg t Hc|s pg z Hc|s k v Hk];
    unfold key_rel in *; cbn [after store] in *.
  - rewrite (load_runs_callback pg (store s) w r Hq Hl). exists None. split; [constructor|]. rewrite Callback.connected_callback_storage. apply lookup_delete_eq.
  - destruct (Callback.dispatch_click_storage t pg (store s)) as (_ & _ & [Hkey|Hkey] & _).
    + exists p. split; [constructor|]. by rewrite Hkey.
    + exists (Some (scroll_top pg)). split; [constructor|]. by rewrite Hkey.
  - exists p. split; [constructor|done].
  - exists p. split; [constructor|]. by rewrite lookup_insert_ne.
Qed.

(** C11: Liveness of the saved offset: from a state showing a page whose
    sidebar carries the listener of line 43 and has a link [t], the user
    can scroll the sidebar to [z] and click [t], reaching a state from
    which the load of the next page [pg'] (its script run in a fresh
    window) shows the sidebar of [pg'] at [z], for every [z] in range on
    both pages. *)
Theorem offset_reaches_next_page s pg t pg' z :
  current s = Some pg ->
  tag_name_at (doc pg) t = Some "A" -> sidebar pg ∈ t :: ancestors t ->
  (sidebar pg, SaveScroll) ∈ listeners pg ->
  (0 <= z <= scroll_max (doc pg) (sidebar pg))%Z ->
  new_page pg' -> Registry.upgrade_candidates (doc pg') Registry.element_name = [sidebar pg'] ->
  (z <= scroll_max (rendered_doc pg') (sidebar pg'))%Z ->
  exists s1, rtc step s s1 /\
    s1 -[ ELoad ]-> after (connected_callback pg' (store s1)) /\
    scroll_top (connected_callback pg' (store s1)).1 = z.
Proof.
  intros Hc Ht Hn Hl Hz Hnew Hq Hz'.
  set (pg1 := with_scroll pg z).
  set (s1 := {| current := Some pg1; store := store s |}).
  exists (after (dispatch_click t pg1 (store s1))). split_and!.
  - apply (rtc_l _ _ s1).
    { exists EScroll. unfold s1, pg1. rewrite <- (clamp_scroll_in_range _ z Hz). by apply step_scroll. }
    apply rtc_once. eexists. by apply step_click.
  - apply (step_load _ pg' Registry.loaded_window); [done|done|]. by apply Registry.script_load_fresh.
  - apply Callback.connected_callback_offset; [|lia].
    cbn [after store]. by apply (Callback.dispatch_click_saves t pg1 _ (sidebar pg)).
Qed.

End Steps.
End Session.
