(* ===== verification/Book.v ===== *)
(** * The handler on the HIP book's own table of contents

    The pages of the book, each with the [path_to_root] mdBook gives it,
    rendered in a page shell whose [<nav id="sidebar">] holds the custom
    element.  URLs are resolved with the RFC 3986 instance of [Browser].
    On this markup:
    - without a stored offset, a chapter page centres its own link and
      the index page the [Glossary] entry, for any layout (which links
      are active is computed by [vm_compute]);
    - every [chapter-item] of the markup already has [expanded], so the
      expansion of lines 28-39 changes no class set, for any page and
      any resolver;
    - the markup has no [a.toggle], so lines 61-67 register no listener,
      for any page. *)

From S2P Require Import Prelude JsString ClassList Dom Browser Markup Sidebar LinkLoop Callback.

Module Book.
Import Dom Browser Sidebar.
#[local] Existing Instance Rfc3986.rfc3986_resolver.

(** [<html><head></head><body><nav id="sidebar"><mdbook-sidebar-scrollbox
    class="sidebar-scrollbox"></mdbook-sidebar-scrollbox></nav></body></html>] *)
Definition shell : node :=
  Element "html" []
    [Element "head" [] [];
     Element "body" []
       [Element "nav" [("id", "sidebar")]
          [Element "mdbook-sidebar-scrollbox" [("class", "sidebar-scrollbox")] []]]].

Definition sidebar_path : path := [1; 0; 0]%nat.

Definition site : string := "https://helios-network.github.io/HIP/".

Definition page_at (url ptr : string) : page :=
  {| doc := shell; location := url; path_to_root := ptr; sidebar := sidebar_path;
     scroll_top := 0; listeners := [] |}.

(** The chapters below [Approved/main/]: their file and the path of their
    link in the rendered document. *)
Definition chapters : list (string * path) :=
  [("Approved/main/HIP/hip-1/index.html", [1; 0; 0; 0; 2; 0; 1; 0; 0; 0]);
   ("Approved/main/HIP/hip-2/index.html", [1; 0; 0; 0; 2; 0; 1; 0; 1; 0]);
   ("Approved/main/HIP/hip-3/index.html", [1; 0; 0; 0; 2; 0; 1; 0; 2; 0]);
   ("Approved/main/HIP/hip-4/index.html", [1; 0; 0; 0; 2; 0; 1; 0; 3; 0]);
   ("Approved/main/HD/hd-1/index.html", [1; 0; 0; 0; 2; 0; 3; 0; 0; 0]);
   ("Approved/main/HD/hd-2/index.html", [1; 0; 0; 0; 2; 0; 3; 0; 1; 0]);
   ("Approved/main/HD/hd-3/index.html", [1; 0; 0; 0; 2; 0; 3; 0; 2; 0]);
   ("Approved/main/HD/hd-4/index.html", [1; 0; 0; 0; 2; 0; 3; 0; 3; 0])]%nat.

(** The shell with the table of contents inserted (line 11), before the
    loop; it does not depend on the page. *)
Definition fresh : node := set_children Markup.toc_nodes sidebar_path shell.

(** ** Which entry is scrolled into view *)

Lemma chapters_active_entry :
  Forall (fun '(file, link) =>
            sidebar_active (rendered_doc (page_at (site +:+ file) "../../../../")) = Some link) chapters.
Proof. repeat (apply Forall_cons_2; [vm_compute; reflexivity|]); apply Forall_nil_2. Qed.

Lemma index_active_entry :
  sidebar_active (rendered_doc (page_at (site +:+ "index.html") "")) = Some [1; 0; 0; 0; 0; 0]%nat.
Proof. vm_compute. reflexivity. Qed.

(** C8: Reached without a stored offset (by the next/previous buttons or a
    fresh tab), a chapter page centres its own link in the sidebar, and
    the index page centres the [Glossary] entry, the first of its five
    active links, whatever the layout. *)
Theorem unsaved_render_centers `{Layout} st :
  truthy (st !! scroll_key) = false ->
  Forall (fun '(file, link) =>
            let pg := page_at (site +:+ file) "../../../../" in
            scroll_top (connected_callback pg st).1 =
            clamp_scroll (scroll_max (rendered_doc pg) sidebar_path)
              (Some (center_scroll (rendered_doc pg) sidebar_path link))) chapters /\
  (let pg := page_at (site +:+ "index.html") "" in
   scroll_top (connected_callback pg st).1 =
   clamp_scroll (scroll_max (rendered_doc pg) sidebar_path)
     (Some (center_scroll (rendered_doc pg) sidebar_path [1; 0; 0; 0; 0; 0]%nat))).
Proof.
  intros Hs. split.
  - eapply Forall_impl; [apply chapters_active_entry|]. intros [file link] Ha.
    cbv beta iota zeta in Ha |- *. by rewrite Callback.connected_callback_unsaved, Ha.
  - cbv zeta. by rewrite Callback.connected_callback_unsaved, index_active_entry.
Qed.

(** ** What the loop cannot change on this markup *)

Lemma rendered_page_at `{UrlResolver} url ptr :
  rendered_doc (page_at url ptr) =
  link_loop url ptr (current_page url) 0 (toc_links fresh sidebar_path) fresh.
Proof. reflexivity. Qed.

Lemma fresh_chapter_items_expanded q :
  has_class fresh q "chapter-item" = true -> has_class fresh q "expanded" = true.
Proof.
  intros Hq. pose proof (has_class_preorder _ _ _ Hq) as Hin.
  assert (forallb (fun q => negb (has_class fresh q "chapter-item") || has_class fresh q "expanded")
            (preorder fresh) = true) as Hall by (vm_compute; reflexivity).
  rewrite forallb_forall in Hall. apply list_elem_of_In in Hin.
  specialize (Hall q Hin). rewrite Hq in Hall. done.
Qed.

(** C20: Every [chapter-item] of the markup already has [expanded]: for any
    page and any resolver, the expansion of lines 28-39 changes no
    element's [expanded] class. *)
Theorem expansion_is_idle `{UrlResolver} url ptr q :
  has_class (rendered_doc (page_at url ptr)) q "expanded" = has_class fresh q "expanded".
Proof.
  rewrite rendered_page_at.
  destruct (LinkLoop.link_loop_post url ptr (current_page url) fresh 0 _
              (Callback.toc_links_nodup fresh sidebar_path)) as (_ & _ & _ & C).
  specialize (C q "expanded"). unfold LinkLoop.marked in C.
  destruct (has_class (link_loop _ _ _ _ _ _) q _), (has_class fresh q _) eqn:E; try done.
  - exfalso. destruct (proj1 C eq_refl) as [?|(j & p & _ & _ & [[? _]|[_ Hq]])]; [done|done|].
    apply LinkLoop.expand_targets_chapter, fresh_chapter_items_expanded in Hq. congruence.
  - apply C. by left.
Qed.

(** C19: The markup has no [a.toggle]: for any page, the callback registers the
    scroll listener and no [toggleSection]. *)
Theorem no_toggle_listeners `{UrlResolver} `{Layout} url ptr st :
  listeners (connected_callback (page_at url ptr) st).1 = [(sidebar_path, SaveScroll)].
Proof.
  destruct (Callback.connected_callback_page (page_at url ptr) st) as [_ ->].
  rewrite rendered_page_at.
  pose proof (LinkLoop.link_loop_post url ptr (current_page url) fresh 0 _
                (Callback.toc_links_nodup fresh sidebar_path)) as HP.
  pose proof HP as (E & _ & O & _).
  rewrite (Callback.sidebar_toggles_frame fresh _ E); [vm_compute; reflexivity| |].
  - intros q. by apply O.
  - intros q. by apply (LinkLoop.loop_post_other_class _ _ _ _ _ _ _ _ _ HP).
Qed.

End Book.
