(* ===== verification/Examples.v ===== *)
(** * The theorems with hypotheses, applied to the book

    Each lemma below takes a theorem of the development whose statement has
    hypotheses, instantiates it on a page of the HIP book (URLs resolved by
    RFC 3986, a layout of 24-pixel rows with ten rows visible), and
    discharges the hypotheses by evaluation: the hypotheses are satisfiable
    on the program's own data. *)

From S2P Require Import Prelude JsString ClassList Dom Html Browser Markup Sidebar LinkLoop Callback Registry Session Book.
From Stdlib Require Import QArith.

Module Examples.
Import Dom Browser Sidebar Book.
#[local] Existing Instance Rfc3986.rfc3986_resolver.
#[local] Instance book_layout : Layout := rows_layout 24 10.

Definition ptr4 : string := "../../../../".
Definition hip1 : string := site +:+ "Approved/main/HIP/hip-1/index.html".
Definition hip2 : string := site +:+ "Approved/main/HIP/hip-2/index.html".

(** The link to HIP-2 in the rendered document, and its [<li>]. *)
Definition hip2_link : path := [1; 0; 0; 0; 2; 0; 1; 0; 1; 0]%nat.
Definition hip2_item : path := [1; 0; 0; 0; 2; 0; 1; 0; 1]%nat.

(** HIP-1 loaded with an empty sessionStorage, then scrolled to 48. *)
Definition loaded : page * storage := connected_callback (page_at hip1 ptr4) ∅.
Definition scrolled : page := with_scroll loaded.1 48.

Ltac eval_prop := match goal with |- ?P => apply (bool_decide_unpack P) end; vm_compute; exact I.

(** A load of [pg]: the script runs in a fresh window and upgrades the
    page's one scrollbox. *)
Ltac load_step pg :=
  apply (Session.step_load _ pg Registry.loaded_window (connected_callback pg _));
  [split; reflexivity|vm_compute; reflexivity|apply Registry.script_load_fresh; vm_compute; reflexivity].

Lemma scroll_survives_navigation_witness :
  tag_name_at (doc scrolled) hip2_link = Some "A" /\
  sidebar scrolled ∈ hip2_link :: ancestors hip2_link /\
  (sidebar scrolled, SaveScroll) ∈ listeners scrolled /\
  (0 <= scroll_top scrolled <= scroll_max (rendered_doc (page_at hip2 ptr4)) sidebar_path)%Z /\
  scroll_top (connected_callback (page_at hip2 ptr4) (dispatch_click hip2_link scrolled loaded.2).2).1 = 48%Z.
Proof.
  assert (Ht : tag_name_at (doc scrolled) hip2_link = Some "A") by (vm_compute; reflexivity).
  assert (Hs : sidebar scrolled ∈ hip2_link :: ancestors hip2_link) by eval_prop.
  assert (Hl : (sidebar scrolled, SaveScroll) ∈ listeners scrolled) by eval_prop.
  assert (Hz : (0 <= scroll_top scrolled <= scroll_max (rendered_doc (page_at hip2 ptr4)) sidebar_path)%Z)
    by (vm_compute; split; discriminate).
  refine (conj Ht (conj Hs (conj Hl (conj Hz _)))).
  exact (Callback.scroll_survives_navigation hip2_link scrolled loaded.2 (page_at hip2 ptr4) Ht Hs Hl Hz).
Defined.

Definition saved48 : storage := {[scroll_key := Js.number_to_string 48]}.

Lemma connected_callback_restores_witness :
  saved48 !! scroll_key = Some (Js.number_to_string 48) /\
  (0 <= 48 <= scroll_max (rendered_doc (page_at hip2 ptr4)) sidebar_path)%Z /\
  scroll_top (connected_callback (page_at hip2 ptr4) saved48).1 = 48%Z.
Proof.
  assert (Hst : saved48 !! scroll_key = Some (Js.number_to_string 48)) by (vm_compute; reflexivity).
  assert (Hz : (0 <= 48 <= scroll_max (rendered_doc (page_at hip2 ptr4)) sidebar_path)%Z)
    by (vm_compute; split; discriminate).
  refine (conj Hst (conj Hz _)).
  exact (Callback.connected_callback_restores (page_at hip2 ptr4) saved48 48 Hst Hz).
Defined.

Lemma toggle_section_flips_witness :
  parent_element hip2_link = Some hip2_item /\ is_Some (attrs_at (doc loaded.1) hip2_item) /\
  forall r' u,
    has_class (doc (toggle_section hip2_link loaded.1)) r' u =
    if decide (r' = hip2_item /\ u = "expanded") then negb (has_class (doc loaded.1) hip2_item "expanded")
    else has_class (doc loaded.1) r' u.
Proof.
  assert (Hq : parent_element hip2_link = Some hip2_item) by (vm_compute; reflexivity).
  assert (Hr : is_Some (attrs_at (doc loaded.1) hip2_item)) by (vm_compute; eexists; reflexivity).
  refine (conj Hq (conj Hr _)).
  exact (Callback.toggle_section_flips loaded.1 hip2_link hip2_item Hq Hr).
Defined.

Lemma current_page_trailing_slash_witness :
  Callback.no_hash "https://helios-network.github.io/HIP" = true /\
  current_page ("https://helios-network.github.io/HIP" +:+ "/") =
  current_page ("https://helios-network.github.io/HIP" +:+ "/index.html").
Proof.
  assert (Hu : Callback.no_hash "https://helios-network.github.io/HIP" = true) by (vm_compute; reflexivity).
  split; [exact Hu|exact (Callback.current_page_trailing_slash _ Hu)].
Defined.

Lemma current_page_fragment_witness :
  Callback.no_hash hip1 = true /\ current_page (hip1 +:+ String "#" "summary") = current_page hip1.
Proof.
  assert (Hu : Callback.no_hash hip1 = true) by (vm_compute; reflexivity).
  split; [exact Hu|exact (Callback.current_page_fragment _ _ Hu)].
Defined.

(** A session: HIP-1 is loaded, the sidebar scrolled to 48, the link to
    HIP-2 clicked, and HIP-2 loaded. *)
Definition s0 : Session.session := {| Session.current := None; Session.store := ∅ |}.
Definition s1 : Session.session := Session.after (connected_callback (page_at hip1 ptr4) ∅).
Definition pg2 : page :=
  with_scroll loaded.1 (clamp_scroll (scroll_max (doc loaded.1) (sidebar loaded.1)) (Some 48%Z)).
Definition s2 : Session.session := {| Session.current := Some pg2; Session.store := loaded.2 |}.
Definition s3 : Session.session := Session.after (dispatch_click hip2_link pg2 loaded.2).
Definition s4 : Session.session :=
  Session.after (connected_callback (page_at hip2 ptr4) (dispatch_click hip2_link pg2 loaded.2).2).

Lemma reachable_session_inv_witness : Session.reachable s4 /\ Session.session_inv s4.
Proof.
  assert (Hr : Session.reachable s4).
  { exists s0. split; [reflexivity|].
    apply (rtc_l _ s0 s1); [eexists; load_step (page_at hip1 ptr4)|].
    apply (rtc_l _ s1 s2); [eexists; by apply (Session.step_scroll s1 loaded.1 48)|].
    apply (rtc_l _ s2 s3); [eexists; by apply (Session.step_click s2 pg2 hip2_link)|].
    apply (rtc_l _ s3 s4); [eexists; load_step (page_at hip2 ptr4)|].
    apply rtc_refl. }
  exact (conj Hr (Session.reachable_session_inv s4 Hr)).
Defined.

(** The click of the session above records the offset 48. *)
Lemma lstep_refines_witness :
  Session.lstep (Session.EClick (scroll_top pg2)) s2 s3 /\ Session.key_rel s2 None /\
  exists p', Session.key_step (Session.EClick (scroll_top pg2)) None p' /\ Session.key_rel s3 p'.
Proof.
  assert (Hs : Session.lstep (Session.EClick (scroll_top pg2)) s2 s3) by (by apply Session.step_click).
  assert (Hr : Session.key_rel s2 None) by (vm_compute; reflexivity).
  exact (conj Hs (conj Hr (Session.lstep_refines _ _ _ None Hs Hr))).
Defined.

(** A sidebar with two links to different pages, on the first one. *)
Definition two_links : node :=
  Element "ol" []
    [Element "li" [] [Element "a" [("href", "a.html")] [Text "A"]];
     Element "li" [] [Element "a" [("href", "b.html")] [Text "B"]]].
Definition two_loc : string := "https://example.org/book/a.html".

Lemma link_loop_one_active_witness :
  NoDup (toc_links two_links []) /\
  forallb (fun q => negb (has_class two_links q "active")) (preorder two_links) = true /\
  NoDup ((fun p => LinkLoop.resolved two_loc (LinkLoop.rewritten_href "" (get_attribute two_links p "href")))
           <$> toc_links two_links []) /\
  ~ ("" = "" /\ Js.ends_with (current_page two_loc) "/index.html" = true) /\
  forall q1 q2,
    has_class (link_loop two_loc "" (current_page two_loc) 0 (toc_links two_links []) two_links) q1 "active" = true ->
    has_class (link_loop two_loc "" (current_page two_loc) 0 (toc_links two_links []) two_links) q2 "active" = true ->
    q1 = q2.
Proof.
  assert (H1 : NoDup (toc_links two_links [])) by eval_prop.
  assert (H2 : forallb (fun q => negb (has_class two_links q "active")) (preorder two_links) = true)
    by (vm_compute; reflexivity).
  assert (H3 : NoDup ((fun p => LinkLoop.resolved two_loc (LinkLoop.rewritten_href "" (get_attribute two_links p "href")))
                      <$> toc_links two_links [])) by eval_prop.
  assert (H4 : ~ ("" = "" /\ Js.ends_with (current_page two_loc) "/index.html" = true)) by eval_prop.
  exact (conj H1 (conj H2 (conj H3 (conj H4
           (LinkLoop.link_loop_one_active two_loc "" (current_page two_loc) two_links _ H1 H2 H3 H4))))).
Defined.

(** [Number(s)] on literals of each form: hexadecimal, octal and binary,
    signed decimal, white space at both ends, fractions and exponents, the
    empty string, the infinities and an overflow; then strings that are
    [NaN]: a prefix without digits, a signed hexadecimal literal, inner
    white space, a lone point, an exponent without digits, a word. *)
Example string_to_number_forms :
  Js.string_to_number <$>
    [" 0x30 "; "0o60"; "0B110000"; "+48"; String "009" "48 "; "12.5"; "1e2"; ".5e1"; "5.";
     "-4.8E-1"; "  "; "-Infinity"; "1e999";
     "0x"; "-0x30"; "4 8"; "."; "1e"; "abc"] =
    [Js.Fin 48; Js.Fin 48; Js.Fin 48; Js.Fin 48; Js.Fin 48; Js.Fin (25 # 2); Js.Fin 100;
     Js.Fin 5; Js.Fin 5; Js.Fin (-12 # 25); Js.Fin 0; Js.Infinity true; Js.Infinity false;
     Js.NaN; Js.NaN; Js.NaN; Js.NaN; Js.NaN; Js.NaN]%Q.
Proof. vm_compute. reflexivity. Qed.

(** The book's pages loaded in a fresh tab, with [book_layout]. *)
Lemma unsaved_render_centers_witness :
  truthy ((∅ : storage) !! scroll_key) = false /\
  Forall (fun '(file, link) =>
            let pg := page_at (site +:+ file) "../../../../" in
            scroll_top (connected_callback pg ∅).1 =
            clamp_scroll (scroll_max (rendered_doc pg) sidebar_path)
              (Some (center_scroll (rendered_doc pg) sidebar_path link))) Book.chapters /\
  (let pg := page_at (site +:+ "index.html") "" in
   scroll_top (connected_callback pg ∅).1 =
   clamp_scroll (scroll_max (rendered_doc pg) sidebar_path)
     (Some (center_scroll (rendered_doc pg) sidebar_path [1; 0; 0; 0; 0; 0]%nat))).
Proof.
  assert (Hs : truthy ((∅ : storage) !! scroll_key) = false) by reflexivity.
  exact (conj Hs (Book.unsaved_render_centers ∅ Hs)).
Defined.

(** Another script stored ["abc"] under the key. *)
Definition garbage : storage := {[scroll_key := "abc"]}.

Lemma connected_callback_not_a_number_witness :
  garbage !! scroll_key = Some "abc" /\ "abc" <> "" /\ Js.finite (Js.string_to_number "abc") = None /\
  scroll_top (connected_callback (page_at hip2 ptr4) garbage).1 = 0%Z.
Proof.
  assert (Hst : garbage !! scroll_key = Some "abc") by (vm_compute; reflexivity).
  assert (Hv : "abc" <> "") by eval_prop.
  assert (Hn : Js.finite (Js.string_to_number "abc") = None) by (vm_compute; reflexivity).
  exact (conj Hst (conj Hv (conj Hn (Callback.connected_callback_not_a_number _ _ _ Hst Hv Hn)))).
Defined.

(** The first load of the script in a fresh window, on HIP-1; then a
    second run in that window, on HIP-2. *)
Definition first_load : Registry.window * (Registry.script_error + (page * storage)) :=
  Registry.script_load Registry.empty_window (page_at hip1 ptr4) ∅.

Lemma script_load_twice_witness :
  first_load = (Registry.loaded_window, inr loaded) /\
  Registry.script_load Registry.loaded_window (page_at hip2 ptr4) loaded.2 =
    (Registry.loaded_window, inl Registry.Redeclaration).
Proof.
  assert (H1 : first_load = (Registry.loaded_window, inr loaded)) by (vm_compute; reflexivity).
  exact (conj H1 (Registry.script_load_twice _ _ _ _ _ (page_at hip2 ptr4) loaded.2 H1)).
Defined.

(** From the state after HIP-1 is loaded, the sidebar can be brought to
    offset 48 on the HIP-2 page. *)
Lemma offset_reaches_next_page_witness :
  Session.current s1 = Some loaded.1 /\
  tag_name_at (doc loaded.1) hip2_link = Some "A" /\
  (sidebar loaded.1 ∈ hip2_link :: ancestors hip2_link) /\
  ((sidebar loaded.1, SaveScroll) ∈ listeners loaded.1) /\
  (0 <= 48 <= scroll_max (doc loaded.1) (sidebar loaded.1))%Z /\
  Session.new_page (page_at hip2 ptr4) /\
  Registry.upgrade_candidates (doc (page_at hip2 ptr4)) Registry.element_name = [sidebar (page_at hip2 ptr4)] /\
  (48 <= scroll_max (rendered_doc (page_at hip2 ptr4)) (sidebar (page_at hip2 ptr4)))%Z /\
  (exists s', rtc Session.step s1 s' /\
     Session.lstep Session.ELoad s' (Session.after (connected_callback (page_at hip2 ptr4) (Session.store s'))) /\
     scroll_top (connected_callback (page_at hip2 ptr4) (Session.store s')).1 = 48%Z).
Proof.
  assert (Hc : Session.current s1 = Some loaded.1) by reflexivity.
  assert (Ht : tag_name_at (doc loaded.1) hip2_link = Some "A") by (vm_compute; reflexivity).
  assert (Hs : sidebar loaded.1 ∈ hip2_link :: ancestors hip2_link) by eval_prop.
  assert (Hl : (sidebar loaded.1, SaveScroll) ∈ listeners loaded.1) by eval_prop.
  assert (Hz : (0 <= 48 <= scroll_max (doc loaded.1) (sidebar loaded.1))%Z)
    by (vm_compute; split; discriminate).
  assert (Hn : Session.new_page (page_at hip2 ptr4)) by (split; reflexivity).
  assert (Hq : Registry.upgrade_candidates (doc (page_at hip2 ptr4)) Registry.element_name =
               [sidebar (page_at hip2 ptr4)]) by (vm_compute; reflexivity).
  assert (Hz' : (48 <= scroll_max (rendered_doc (page_at hip2 ptr4)) (sidebar (page_at hip2 ptr4)))%Z)
    by (vm_compute; discriminate).
  refine (conj Hc (conj Ht (conj Hs (conj Hl (conj Hz (conj Hn (conj Hq (conj Hz' _)))))))).
  exact (Session.offset_reaches_next_page s1 loaded.1 hip2_link _ 48 Hc Ht Hs Hl Hz Hn Hq Hz').
Defined.

(** ** The link loop on the book's own links *)

Definition book_links : list path := toc_links fresh sidebar_path.
Definition glossary_link : path := [1; 0; 0; 0; 0; 0]%nat.
Definition approved_link : path := [1; 0; 0; 0; 1; 0]%nat.
Definition index_loc : string := site +:+ "index.html".

(** On the book's [index.html] the [Glossary] link is active by the alias,
    and the [Approved] link, whose target is the page, is active too. *)
Lemma link_loop_index_alias_witness :
  NoDup (glossary_link :: tail book_links) /\ is_Some (attrs_at fresh glossary_link) /\
  Js.ends_with (current_page index_loc) "/index.html" = true /\
  approved_link ∈ tail book_links /\ is_Some (attrs_at fresh approved_link) /\
  LinkLoop.resolved index_loc (LinkLoop.rewritten_href "" (get_attribute fresh approved_link "href"))
    = current_page index_loc /\
  has_class (link_loop index_loc "" (current_page index_loc) 0 (glossary_link :: tail book_links) fresh)
    glossary_link "active" = true /\
  has_class (link_loop index_loc "" (current_page index_loc) 0 (glossary_link :: tail book_links) fresh)
    approved_link "active" = true.
Proof.
  assert (H1 : NoDup (glossary_link :: tail book_links)) by eval_prop.
  assert (H2 : is_Some (attrs_at fresh glossary_link)) by (vm_compute; eexists; reflexivity).
  assert (H3 : Js.ends_with (current_page index_loc) "/index.html" = true) by (vm_compute; reflexivity).
  assert (Ha : approved_link ∈ tail book_links) by eval_prop.
  assert (Hb : is_Some (attrs_at fresh approved_link)) by (vm_compute; eexists; reflexivity).
  assert (Hr : LinkLoop.resolved index_loc (LinkLoop.rewritten_href "" (get_attribute fresh approved_link "href"))
                 = current_page index_loc) by (vm_compute; reflexivity).
  destruct (LinkLoop.link_loop_index_alias index_loc "" (current_page index_loc) fresh glossary_link
              (tail book_links) H1 H2 eq_refl H3) as [Hg Hq].
  exact (conj H1 (conj H2 (conj H3 (conj Ha (conj Hb (conj Hr (conj Hg (Hq _ Ha Hb Hr)))))))).
Defined.

(** On the HIP-2 page, its link (the fifth) is active and its item and
    the section entries above it are expanded. *)
Lemma link_loop_marks_current_witness :
  NoDup book_links /\ book_links !! 4%nat = Some hip2_link /\ is_Some (attrs_at fresh hip2_link) /\
  LinkLoop.resolved hip2 (LinkLoop.rewritten_href ptr4 (get_attribute fresh hip2_link "href"))
    = current_page hip2 /\
  has_class (link_loop hip2 ptr4 (current_page hip2) 0 book_links fresh) hip2_link "active" = true /\
  forall r, r ∈ LinkLoop.expand_targets fresh hip2_link ->
    has_class (link_loop hip2 ptr4 (current_page hip2) 0 book_links fresh) r "expanded" = true.
Proof.
  assert (H1 : NoDup book_links) by eval_prop.
  assert (H2 : book_links !! 4%nat = Some hip2_link) by (vm_compute; reflexivity).
  assert (H3 : is_Some (attrs_at fresh hip2_link)) by (vm_compute; eexists; reflexivity).
  assert (H4 : LinkLoop.resolved hip2 (LinkLoop.rewritten_href ptr4 (get_attribute fresh hip2_link "href"))
                 = current_page hip2) by (vm_compute; reflexivity).
  exact (conj H1 (conj H2 (conj H3 (conj H4
           (LinkLoop.link_loop_marks_current hip2 ptr4 (current_page hip2) fresh _ _ _ H1 H2 H3 H4))))).
Defined.

(** HIP-1 opened from a search result: no link is active. *)
Definition query : string := "highlight=chronos".

Lemma query_page_no_active_witness :
  NoDup book_links /\ Callback.no_hash hip1 = true /\
  forallb (fun p => negb (has_class fresh p "active")) (preorder fresh) = true /\
  forallb (fun p => Callback.no_query (LinkLoop.resolved (hip1 +:+ String "?" query)
                      (LinkLoop.rewritten_href ptr4 (get_attribute fresh p "href")))) book_links = true /\
  ~ (ptr4 = "" /\ Js.ends_with (current_page (hip1 +:+ String "?" query)) "/index.html" = true) /\
  has_class (link_loop (hip1 +:+ String "?" query) ptr4 (current_page (hip1 +:+ String "?" query)) 0
               book_links fresh) [1; 0; 0; 0; 2; 0; 1; 0; 0; 0]%nat "active" = false.
Proof.
  assert (H1 : NoDup book_links) by eval_prop.
  assert (H2 : Callback.no_hash hip1 = true) by (vm_compute; reflexivity).
  assert (H3 : forallb (fun p => negb (has_class fresh p "active")) (preorder fresh) = true)
    by (vm_compute; reflexivity).
  assert (H4 : forallb (fun p => Callback.no_query (LinkLoop.resolved (hip1 +:+ String "?" query)
                 (LinkLoop.rewritten_href ptr4 (get_attribute fresh p "href")))) book_links = true)
    by (vm_compute; reflexivity).
  assert (H5 : ~ (ptr4 = "" /\ Js.ends_with (current_page (hip1 +:+ String "?" query)) "/index.html" = true))
    by (intros [H _]; discriminate H).
  exact (conj H1 (conj H2 (conj H3 (conj H4 (conj H5
           (Callback.query_page_no_active fresh _ _ _ ptr4 _ H1 H2 H3 H4 H5)))))).
Defined.

End Examples.
